(** * The deployment supervisor of biomedicus: [deploy]

    A shallow embedding of [deploy] in
    [python/biomedicus/deployment/deploy_biomedicus.py], from the point
    where the list [calls] of (command line, port) pairs is complete
    (line 116) to the end of the function (line 154).

    [deploy] talks to the outside world (it starts child processes and
    relay threads, waits for gRPC channels, joins threads) and it
    installs a SIGINT handler, a closure over its local variables that
    Python runs in the main thread between two byte-code instructions of
    whatever is executing, the handler itself included.  The embedding is
    therefore a small-step machine:

    - the state holds the local variables of [deploy] that the handler
      shares ([processes], [process_listeners], [e], [shutting_down],
      [future]), a program point of the main flow, a stack of program
      points of the handler activations in progress, and the trace of
      what the program did so far;
    - one step runs one statement of the innermost activation, or
      delivers one SIGINT;
    - the environment supplies, as the input of a step, what the
      statement's external call answers: whether [Popen] starts the
      process, how [future.result(timeout=20)] ends, whether
      [listener.join(timeout=5)] sees the thread end; and it tells when
      the channel of a probe that timed out becomes ready after all. *)

From Stdlib Require Import String List ZArith Arith Bool Lia.
Import ListNotations.
Open Scope string_scope.
Open Scope list_scope.

Module Deploy.

(** ** Data *)

(** A command line, and the launch plan: the list [calls] as it stands at
    line 116, each entry a command line with the port of its service. *)
Definition call := list string.
Definition plan := list (call * string).

(** How [future.result(timeout=20)] can end (the future that
    [grpc.channel_ready_future] returns): it returns when the channel is
    ready, raises [grpc.FutureTimeoutError] when the timeout has passed,
    raises [grpc.FutureCancelledError] when the future was cancelled. *)
Inductive readiness := Ready | Timeout | Cancelled.

(** The four lines [deploy] and [handler] print:
    "Shutting down all processors" (131), 'Failed to launch: {}' with the
    command (149), 'Done starting all processors' (152) and
    "Done shutting down all processors" (154). *)
Inductive line :=
| ShuttingDown
| FailedToLaunch (c : call)
| DoneStarting
| DoneShuttingDown.

(** What a run does, in the order it does it. Processes, relay threads
    and futures are named by the index of their entry in [calls]. *)
Inductive event :=
| ESpawn (i : nat) (c : call)                      (* Popen(call, ...) returned *)
| ERelay (i : nat)                                 (* Thread(target=_listen).start() *)
| EPrint (l : line)                                (* print(...) *)
| ESignal (i : nat)                                (* p.send_signal(signal.SIGINT) *)
| ECancel (i : nat)                                (* future.cancel() *)
| EJoin (i : nat) (timeout : Z) (finished : bool)  (* listener.join(timeout=5) *)
| ESet                                             (* e.set() *)
| EProbe (i : nat) (address : string) (timeout : Z)(* future.result(timeout=20) entered *)
| EResult (i : nat) (r : readiness).               (* ... and how it ended *)

(** The exceptions that leave [deploy]: none of them is caught in it. *)
Inductive exn :=
| SpawnFailure (i : nat)     (* raised by Popen, line 119 *)
| FutureCancelledError       (* raised by future.result, line 147 *)
| TypeError                  (* raised by future.cancel, line 135 *)
| KeyboardInterrupt.         (* SIGINT before signal.signal, line 140 *)

(** [deploy] has no [return] with a value and no [sys.exit]: it ends by
    falling off its end or by an exception. *)
Inductive outcome := Returned | Raised (x : exn).

(** Program points of the main flow, by source line. *)
Inductive mpc :=
| MSpawn (i : nat)        (* 118-119: next call of the launch loop, Popen *)
| MListen (i : nat)       (* 120-123: start the relay, append to both lists *)
| MInstall                (* 125-140: e, shutting_down, future, signal.signal *)
| MCheck (i : nat)        (* 142-143: next call of the probe loop, the flag test *)
| MChannel (i : nat)      (* 144-147: channel, future, entering future.result *)
| MResult (i : nat)       (* 147: blocked in future.result(timeout=20) *)
| MFailed (i : nat)       (* 149: print 'Failed to launch' *)
| MCallHandler (i : nat)  (* 150: handler(None, None) *)
| MDoneStarting           (* 152 *)
| MWait                   (* 153: e.wait() *)
| MDoneShutting           (* 154 *)
| MFinished (o : outcome).

(** Program points of one activation of [handler]. *)
Inductive hpc :=
| HFlag            (* 130: shutting_down[0] = True *)
| HPrint           (* 131 *)
| HSignal (j : nat)(* 132-133: for p in processes: p.send_signal *)
| HCancel          (* 134-135: if future is not None: future.cancel() *)
| HJoin (j : nat)  (* 136-137: for listener in process_listeners: join *)
| HSet.            (* 138: e.set() *)

(** The future of line 145: the channel it watches and the two flags
    grpc keeps in it. [cancelled] is set by the first [cancel()] on a
    future that has not matured; [matured] is set when the channel is
    found ready, unless the future was cancelled before. *)
Record future_t := { chan : nat; cancelled : bool; matured : bool }.

Record state := {
  processes : list nat;
  process_listeners : list nat;
  installed : bool;              (* signal.signal(SIGINT, handler) was run *)
  e : bool;                      (* the Event is set *)
  shutting_down : bool;          (* shutting_down[0] *)
  future : option future_t;      (* None is Python's None *)
  main : mpc;
  handlers : list hpc;           (* handler activations, innermost first *)
  trace : list event
}.

(** What the environment feeds one step. *)
Inductive input :=
| Sigint                      (* a SIGINT is delivered *)
| Go                          (* run a statement that asks nothing *)
| Spawned | SpawnError        (* Popen returns, or raises *)
| Resolved (r : readiness)    (* future.result(timeout=20) ends *)
| Joined (finished : bool)    (* listener.join(timeout=5) returns *)
| Connected.                  (* the channel of a probe that timed out
                                 becomes ready *)

(** ** Updates of the state *)

Definition emit (ev : event) (s : state) : state :=
  {| processes := processes s; process_listeners := process_listeners s;
     installed := installed s; e := e s; shutting_down := shutting_down s;
     future := future s; main := main s; handlers := handlers s;
     trace := trace s ++ [ev] |}.

Definition goto (m : mpc) (s : state) : state :=
  {| processes := processes s; process_listeners := process_listeners s;
     installed := installed s; e := e s; shutting_down := shutting_down s;
     future := future s; main := m; handlers := handlers s;
     trace := trace s |}.

Definition set_handlers (hs : list hpc) (s : state) : state :=
  {| processes := processes s; process_listeners := process_listeners s;
     installed := installed s; e := e s; shutting_down := shutting_down s;
     future := future s; main := main s; handlers := hs;
     trace := trace s |}.

(** The innermost activation moves to [h]; it returns; a new one starts. *)
Definition hgoto (h : hpc) (s : state) : state :=
  set_handlers (h :: tl (handlers s)) s.
Definition hreturn (s : state) : state :=
  set_handlers (tl (handlers s)) s.
Definition hcall (s : state) : state :=
  set_handlers (HFlag :: handlers s) s.

Definition set_shutting_down (b : bool) (s : state) : state :=
  {| processes := processes s; process_listeners := process_listeners s;
     installed := installed s; e := e s; shutting_down := b;
     future := future s; main := main s; handlers := handlers s;
     trace := trace s |}.

Definition set_e (b : bool) (s : state) : state :=
  {| processes := processes s; process_listeners := process_listeners s;
     installed := installed s; e := b; shutting_down := shutting_down s;
     future := future s; main := main s; handlers := handlers s;
     trace := trace s |}.

Definition set_future (f : option future_t) (s : state) : state :=
  {| processes := processes s; process_listeners := process_listeners s;
     installed := installed s; e := e s; shutting_down := shutting_down s;
     future := f; main := main s; handlers := handlers s;
     trace := trace s |}.

Definition set_installed (b : bool) (s : state) : state :=
  {| processes := processes s; process_listeners := process_listeners s;
     installed := b; e := e s; shutting_down := shutting_down s;
     future := future s; main := main s; handlers := handlers s;
     trace := trace s |}.

(** Lines 122-123: [process_listeners.append(listener)],
    [processes.append(p)]. *)
Definition append_child (i : nat) (s : state) : state :=
  {| processes := processes s ++ [i];
     process_listeners := process_listeners s ++ [i];
     installed := installed s; e := e s; shutting_down := shutting_down s;
     future := future s; main := main s; handlers := handlers s;
     trace := trace s |}.

(** ** The program *)

(** Line 144: the address the channel is opened on. *)
Definition address (port : string) : string := ("127.0.0.1:" ++ port)%string.

(** Line 147 and line 137: the two timeouts. *)
Definition probe_timeout : Z := 20.
Definition join_timeout : Z := 5.

(** Whether the future [deploy] holds was cancelled; whether it has
    matured. *)
Definition future_cancelled (s : state) : bool :=
  match future s with
  | Some f => cancelled f
  | None => false
  end.

Definition future_matured (s : state) : bool :=
  match future s with
  | Some f => matured f
  | None => false
  end.

(** The channel is found ready: the future matures. *)
Definition mature (f : option future_t) : option future_t :=
  match f with
  | Some f => Some {| chan := chan f; cancelled := cancelled f; matured := true |}
  | None => None
  end.

(** An exception raised in an activation of the handler is raised in
    what the activation interrupted, and so on down to the main flow,
    where nothing catches it: every activation is abandoned and the
    exception leaves [deploy]. *)
Definition hraise (x : exn) (s : state) : state :=
  set_handlers [] (goto (MFinished (Raised x)) s).

(** One statement of [handler] (lines 129-138), run by the innermost
    activation, which is at [h]. The two [for] loops walk their list by
    index, as Python's list iterator does, and leave it when the index
    is past the end.

    Line 135, [future.cancel()], as grpc has it: on a future that has
    matured it does nothing and returns False; otherwise it sets the
    cancelled flag, and then takes the list of the future's callbacks and
    replaces it by None, so that a second call on a future that was
    cancelled already finds None where it expects the list and raises
    TypeError. *)
Definition step_handler (h : hpc) (s : state) (a : input) : option state :=
  match h, a with
  (* 130 *)
  | HFlag, Go => Some (hgoto HPrint (set_shutting_down true s))
  (* 131 *)
  | HPrint, Go => Some (hgoto (HSignal 0) (emit (EPrint ShuttingDown) s))
  (* 132-133 *)
  | HSignal j, Go =>
      match nth_error (processes s) j with
      | Some p => Some (hgoto (HSignal (S j)) (emit (ESignal p) s))
      | None => Some (hgoto HCancel s)
      end
  (* 134-135 *)
  | HCancel, Go =>
      match future s with
      | Some f =>
          if matured f
          then Some (hgoto (HJoin 0) (emit (ECancel (chan f)) s))
          else if cancelled f
          then Some (hraise TypeError (emit (ECancel (chan f)) s))
          else Some (hgoto (HJoin 0)
                       (emit (ECancel (chan f))
                          (set_future
                             (Some {| chan := chan f; cancelled := true;
                                      matured := false |}) s)))
      | None => Some (hgoto (HJoin 0) s)
      end
  (* 136-137 *)
  | HJoin j, Joined b =>
      match nth_error (process_listeners s) j with
      | Some l => Some (hgoto (HJoin (S j)) (emit (EJoin l join_timeout b) s))
      | None => None
      end
  | HJoin j, Go =>
      match nth_error (process_listeners s) j with
      | Some _ => None
      | None => Some (hgoto HSet s)
      end
  (* 138 *)
  | HSet, Go => Some (hreturn (emit ESet (set_e true s)))
  | _, _ => None
  end.

(** One statement of the main flow of [deploy] (lines 116-154), run when
    no handler activation is in progress.

    Line 147, [future.result(timeout=20)], ends in one of three ways and
    line 148 catches one of them, FutureTimeoutError. grpc's future looks
    at its cancelled flag first, then at its matured flag, and only then
    at the clock: once it was cancelled it raises FutureCancelledError,
    and never otherwise; it returns when the channel is found ready,
    which sets the matured flag; it times out when neither happened. *)
Definition step_main (calls : plan) (s : state) (a : input) : option state :=
  match main s, a with
  (* 118: the launch loop is over *)
  | MSpawn i, Go =>
      match nth_error calls i with
      | Some _ => None
      | None => Some (goto MInstall s)
      end
  (* 119 *)
  | MSpawn i, Spawned =>
      match nth_error calls i with
      | Some (c, _) => Some (goto (MListen i) (emit (ESpawn i c) s))
      | None => None
      end
  | MSpawn i, SpawnError =>
      match nth_error calls i with
      | Some _ => Some (goto (MFinished (Raised (SpawnFailure i))) s)
      | None => None
      end
  (* 120-123 *)
  | MListen i, Go =>
      Some (goto (MSpawn (S i)) (append_child i (emit (ERelay i) s)))
  (* 125-140 *)
  | MInstall, Go =>
      Some (goto (MCheck 0)
              (set_installed true
                 (set_future None (set_shutting_down false (set_e false s)))))
  (* 142-143 *)
  | MCheck i, Go =>
      match nth_error calls i with
      | Some _ =>
          if shutting_down s then Some (goto (MCheck (S i)) s)
          else Some (goto (MChannel i) s)
      | None => Some (goto MDoneStarting s)
      end
  (* 144-147 *)
  | MChannel i, Go =>
      match nth_error calls i with
      | Some (_, port) =>
          Some (goto (MResult i)
                  (emit (EProbe i (address port) probe_timeout)
                     (set_future
                        (Some {| chan := i; cancelled := false;
                                 matured := false |}) s)))
      | None => None
      end
  (* 147: returns; the [with] block ends, next call *)
  | MResult i, Resolved Ready =>
      if future_cancelled s then None
      else Some (goto (MCheck (S i))
                   (emit (EResult i Ready)
                      (set_future (mature (future s)) s)))
  (* 147-148: FutureTimeoutError, caught *)
  | MResult i, Resolved Timeout =>
      if future_cancelled s || future_matured s then None
      else Some (goto (MFailed i) (emit (EResult i Timeout) s))
  (* 147: FutureCancelledError, not caught *)
  | MResult i, Resolved Cancelled =>
      if future_cancelled s
      then Some (goto (MFinished (Raised FutureCancelledError))
                   (emit (EResult i Cancelled) s))
      else None
  (* 149 *)
  | MFailed i, Go =>
      match nth_error calls i with
      | Some (c, _) =>
          Some (goto (MCallHandler i) (emit (EPrint (FailedToLaunch c)) s))
      | None => None
      end
  (* 150: the call; the loop goes on when it returns *)
  | MCallHandler i, Go => Some (hcall (goto (MCheck (S i)) s))
  (* 152 *)
  | MDoneStarting, Go => Some (goto MWait (emit (EPrint DoneStarting) s))
  (* 153: blocked while the event is unset *)
  | MWait, Go => if e s then Some (goto MDoneShutting s) else None
  (* 154 *)
  | MDoneShutting, Go =>
      Some (goto (MFinished Returned) (emit (EPrint DoneShuttingDown) s))
  | _, _ => None
  end.

(** [deploy] has returned or raised. *)
Definition finished (s : state) : bool :=
  match main s with
  | MFinished _ => true
  | _ => false
  end.

(** The channel of the future becomes ready, in grpc's own thread, and
    the future matures, unless it was cancelled. While [future.result]
    waits this is what ends the wait, [Resolved Ready]; [Connected] is
    the same event once the wait has timed out. A SIGINT that arrives
    between the channel becoming ready and [future.result] returning is
    taken as arriving just after the return: its activation finds the
    future matured either way. *)
Definition in_result (s : state) : bool :=
  match main s with
  | MResult _ => true
  | _ => false
  end.

Definition connect (s : state) : option state :=
  if in_result s then None
  else match future s with
       | Some f =>
           if cancelled f || matured f then None
           else Some (set_future (mature (future s)) s)
       | None => None
       end.

(** One step of the run. A SIGINT starts an activation of [handler] on
    top of whatever is running once line 140 was executed; before that,
    Python's default handler raises KeyboardInterrupt in the main flow.
    [None]: the input is not one the program can take in this state (it
    is over, the statement asks something else, or it is blocked). *)
Definition step (calls : plan) (s : state) (a : input) : option state :=
  if finished s then None
  else
    match a with
    | Sigint =>
        if installed s then Some (hcall s)
        else Some (goto (MFinished (Raised KeyboardInterrupt)) s)
    | Connected => connect s
    | _ =>
        match handlers s with
        | h :: _ => step_handler h s a
        | [] => step_main calls s a
        end
    end.

(** The state on entry to line 116. *)
Definition init : state :=
  {| processes := []; process_listeners := []; installed := false;
     e := false; shutting_down := false; future := None;
     main := MSpawn 0; handlers := []; trace := [] |}.

(** The steps the inputs [ins] drive, from [s]. *)
Fixpoint run (calls : plan) (s : state) (ins : list input) : option state :=
  match ins with
  | [] => Some s
  | a :: ins' =>
      match step calls s a with
      | Some s' => run calls s' ins'
      | None => None
      end
  end.

(** [deploy] on the plan [calls], against the environment [ins]. *)
Definition deploy (calls : plan) (ins : list input) : option state :=
  run calls init ins.

(** The status the program ends with when [deploy] is the last thing it
    does, as the parent process reads it: 0 when [deploy] returns; 1
    when an exception leaves it and the interpreter prints the traceback;
    and, when that exception is KeyboardInterrupt, the interpreter ends
    itself with SIGINT, which the parent reads as -2, killed by signal
    2. *)
Definition exit_status (o : outcome) : Z :=
  match o with
  | Returned => 0
  | Raised KeyboardInterrupt => -2
  | Raised _ => 1
  end.

(** ** Reading a trace *)

Definition is_launch (ev : event) : bool :=
  match ev with
  | ESpawn _ _ | ERelay _ => true
  | _ => false
  end.

(** The probes of a trace: channel, address and timeout, in order. *)
Definition probes (tr : list event) : list (nat * string * Z) :=
  flat_map (fun ev => match ev with
                      | EProbe i a t => [(i, a, t)]
                      | _ => []
                      end) tr.

(** The lines printed, in order. *)
Definition printed (tr : list event) : list line :=
  flat_map (fun ev => match ev with
                      | EPrint l => [l]
                      | _ => []
                      end) tr.

(** How many termination requests child [j] was sent. *)
Definition signals_to (j : nat) (tr : list event) : nat :=
  length (filter (fun ev => match ev with
                            | ESignal i => Nat.eqb i j
                            | _ => false
                            end) tr).

Definition spawn_count (tr : list event) : nat :=
  length (filter (fun ev => match ev with ESpawn _ _ => true | _ => false end) tr).

Definition relay_count (tr : list event) : nat :=
  length (filter (fun ev => match ev with ERelay _ => true | _ => false end) tr).

(** What the launch loop (lines 118-123) does for the first [n] calls. *)
Definition launch_events (calls : plan) (n : nat) : list event :=
  flat_map (fun i => match nth_error calls i with
                     | Some (c, _) => [ESpawn i c; ERelay i]
                     | None => []
                     end) (seq 0 n).

(** The probe of the [i]-th call, as line 144-147 issues it. *)
Definition probe_at (calls : plan) (i : nat) : nat * string * Z :=
  (i, address (snd (nth i calls ([], ""))), probe_timeout).

(** ** One activation of [handler], run without a further SIGINT *)

(** The inputs it takes with [n] children, [joins] telling for each
    listener whether it ended within the timeout. *)
Definition handler_inputs (n : nat) (joins : list bool) : list input :=
  [Go; Go] ++ repeat Go n ++ [Go; Go] ++ map Joined joins ++ [Go; Go].

(** What it does, given the children and the future it finds. *)
Definition cancel_events (f : option future_t) : list event :=
  match f with
  | Some f => [ECancel (chan f)]
  | None => []
  end.

Definition join_events (ls : list nat) (joins : list bool) : list event :=
  map (fun lb => EJoin (fst lb) join_timeout (snd lb)) (combine ls joins).

Definition handler_events (s : state) (joins : list bool) : list event :=
  [EPrint ShuttingDown] ++ map ESignal (processes s)
    ++ cancel_events (future s)
    ++ join_events (process_listeners s) joins ++ [ESet].

Definition cancel_future (f : option future_t) : option future_t :=
  match f with
  | Some f =>
      if matured f then Some f
      else Some {| chan := chan f; cancelled := true; matured := false |}
  | None => None
  end.

(** Line 135 raises: the future was cancelled before. *)
Definition cancel_raises (f : option future_t) : bool :=
  match f with
  | Some f => negb (matured f) && cancelled f
  | None => false
  end.

(** The state it leaves, having started in [s] on top of [hs]. *)
Definition after_handler (hs : list hpc) (s : state) (joins : list bool) : state :=
  {| processes := processes s; process_listeners := process_listeners s;
     installed := installed s; e := true; shutting_down := true;
     future := cancel_future (future s); main := main s; handlers := hs;
     trace := trace s ++ handler_events s joins |}.

(** The inputs an activation takes up to line 135 included, and the
    state it leaves when that line raises: every activation is gone and
    TypeError has left [deploy]. *)
Definition cancel_inputs (n : nat) : list input :=
  [Go; Go] ++ repeat Go n ++ [Go; Go].


(** ** Invariants of a run *)

(** Before line 125 nothing of the shutdown machinery exists. *)
Definition quiet (s : state) : Prop :=
  installed s = false /\ shutting_down s = false /\ e s = false
  /\ handlers s = [] /\ future s = None.

(** The two lists hold the first [n] children. *)
Definition children (n : nat) (s : state) : Prop :=
  processes s = seq 0 n /\ process_listeners s = seq 0 n.

(** Once the handler is installed. An activation that has not yet run
    line 130 is the only way to be in the handler with the flag unset. *)
Definition armed (n : nat) (s : state) : Prop :=
  installed s = true /\ children n s
  /\ (shutting_down s = true \/ Forall (fun h => h = HFlag) (handlers s))
  /\ (e s = true -> shutting_down s = true)
  /\ (future_cancelled s = true -> shutting_down s = true).

(** What the shared variables hold at each program point of the main
    flow. *)
Definition control_inv (calls : plan) (s : state) : Prop :=
  let n := length calls in
  match main s with
  | MSpawn i => i <= n /\ quiet s /\ children i s
  | MListen i => i < n /\ quiet s /\ children i s
  | MInstall => quiet s /\ children n s
  | MCheck i => i <= n /\ armed n s
  | MChannel i => i < n /\ armed n s
  | MResult i =>
      i < n /\ armed n s
      /\ exists b,
           future s = Some {| chan := i; cancelled := b; matured := false |}
  | MFailed i => i < n /\ armed n s
  | MCallHandler i => i < n /\ armed n s
  | MDoneStarting | MWait => armed n s
  | MDoneShutting => armed n s /\ e s = true
  | MFinished Returned => armed n s /\ e s = true
  | MFinished (Raised FutureCancelledError) | MFinished (Raised TypeError) =>
      armed n s /\ shutting_down s = true
  | MFinished (Raised (SpawnFailure i)) => i < n /\ quiet s /\ children i s
  | MFinished (Raised KeyboardInterrupt) => quiet s
  end.

(** [deploy] has not ended. *)
Definition running (m : mpc) : Prop :=
  match m with
  | MFinished _ => False
  | _ => True
  end.

(** The launch is over and the probe loop has issued exactly the probes
    of the first [k] calls, in order: the trace is the launch, then
    events among which no process or relay is started. *)
Definition probed (calls : plan) (tr : list event) (k : nat) : Prop :=
  exists rest,
    tr = launch_events calls (List.length calls) ++ rest
    /\ Forall (fun ev => is_launch ev = false) rest
    /\ probes rest = map (probe_at calls) (seq 0 k).

(** What the trace holds at each program point of the main flow. *)
Definition trace_inv (calls : plan) (s : state) : Prop :=
  let n := List.length calls in
  match main s with
  | MSpawn i => trace s = launch_events calls i
  | MListen i =>
      exists c p, nth_error calls i = Some (c, p)
                  /\ trace s = launch_events calls i ++ [ESpawn i c]
  | MInstall => trace s = launch_events calls n
  | MCheck i =>
      exists k, probed calls (trace s) k /\ k <= i
                /\ (shutting_down s = false -> k = i)
  | MChannel i => probed calls (trace s) i
  | MResult i | MFailed i | MCallHandler i => probed calls (trace s) (S i)
  | MDoneStarting | MWait | MDoneShutting | MFinished Returned =>
      exists k, probed calls (trace s) k /\ k <= n
                /\ (shutting_down s = false -> k = n)
  | MFinished (Raised FutureCancelledError) | MFinished (Raised TypeError) =>
      exists k, probed calls (trace s) k /\ k <= n
  | MFinished (Raised (SpawnFailure i)) => trace s = launch_events calls i
  | MFinished (Raised KeyboardInterrupt) =>
      Forall (fun ev => is_launch ev = true) (trace s)
  end.

(** The probe loop was left by its end, not by an exception. *)
Definition loop_done (m : mpc) : bool :=
  match m with
  | MDoneStarting | MWait | MDoneShutting | MFinished Returned => true
  | _ => false
  end.

(** The probe loop will issue no further probe: a probe has timed out
    and line 149-150 is about to run, or the loop is at its flag test (or
    past it) with the flag set, or with activations of the handler in
    progress that are all about to set it, or line 135 has raised. *)
Definition abandoned (s : state) : Prop :=
  match main s with
  | MFailed _ | MCallHandler _ => True
  | MCheck _ | MDoneStarting | MWait | MDoneShutting | MFinished Returned =>
      shutting_down s = true
      \/ (handlers s <> [] /\ Forall (fun h => h = HFlag) (handlers s))
  | MFinished (Raised TypeError) => True
  | _ => False
  end.

(** Some probe of the trace ended with a timeout. *)
Definition timed_out (tr : list event) : bool :=
  existsb (fun ev => match ev with
                     | EResult _ Timeout => true
                     | _ => false
                     end) tr.





(** ** Where line 135 can raise *)

(** The probes of a trace that found their channel ready. *)
Definition ready_count (tr : list event) : nat :=
  List.length (filter (fun ev => match ev with
                                 | EResult _ Ready => true
                                 | _ => false
                                 end) tr).

(** The probe loop is at call [i] or before: at most [i] probes have
    found their channel ready; and a future that has not matured belongs
    to a call that has not been found ready. *)
Definition ready_inv (calls : plan) (s : state) : Prop :=
  match main s with
  | MSpawn _ | MListen _ | MInstall => ready_count (trace s) = 0
  | MCheck i | MChannel i | MResult i | MFailed i | MCallHandler i =>
      ready_count (trace s) <= i
  | _ => True
  end
  /\ forall f, future s = Some f -> matured f = false ->
               ready_count (trace s) <= chan f /\ chan f < List.length calls.

(** The handler is at line 135 or before it. *)
Definition before_join (h : hpc) : bool :=
  match h with
  | HFlag | HPrint | HSignal _ | HCancel => true
  | _ => false
  end.

(** What holds throughout a run in which no SIGINT arrives: the only
    activation of the handler is the one that line 150 starts, it finds a
    future that was not cancelled, and line 135 has not raised. *)
Definition lone (s : state) : Prop :=
  List.length (handlers s) <= 1
  /\ (forall h, handlers s = [h] -> before_join h = true ->
                future_cancelled s = false)
  /\ match main s with
     | MChannel _ | MResult _ | MFailed _ | MCallHandler _ =>
         shutting_down s = false /\ handlers s = []
     | MFinished (Raised TypeError) => False
     | _ => True
     end.

(** ** Relay threads that end in time *)

(** The same environment, except that every relay thread ends within the
    timeout of its [join]. *)
Definition all_joined (a : input) : input :=
  match a with
  | Joined _ => Joined true
  | _ => a
  end.

(** The same event, the outcome of a [join] left out. *)
Definition forget_join (ev : event) : event :=
  match ev with
  | EJoin l t _ => EJoin l t true
  | _ => ev
  end.

(** The same state, the outcomes of the joins left out of its trace. *)
Definition forget_joins (s : state) : state :=
  {| processes := processes s; process_listeners := process_listeners s;
     installed := installed s; e := e s; shutting_down := shutting_down s;
     future := future s; main := main s; handlers := handlers s;
     trace := map forget_join (trace s) |}.

(** ** Sentences of the specification that the code does not follow *)


(** What the specification says of a cancelled probe, that it is not
    treated as a failure: [deploy] does not end with an exception. *)
Definition spec_not_a_failure (s : state) : Prop :=
  forall x, main s <> MFinished (Raised x).

(** ** Plans and environments used as examples *)

(** One service; three services, as lines 90-115 build them (shortened). *)
Definition plan1 : plan := [(["java"; "-p"; "10103"], "10103")].

Definition plan3 : plan :=
  [ (["python"; "-m"; "mtap"; "events"; "-p"; "10100"], "10100");
    (["java"; "TntPosTaggerProcessor"; "-p"; "10103"], "10103");
    (["python"; "-m"; "biomedicus.negation.negex"; "-p"; "10106"], "10106") ].

(** The launch loop and line 125-140, every [Popen] succeeding. *)
Definition launch_inputs (n : nat) : list input :=
  flat_map (fun _ => [Spawned; Go]) (seq 0 n) ++ [Go; Go].

(** The state a run ends in ([init] when the environment is not one the
    program can meet). *)
Definition final (calls : plan) (s : state) (ins : list input) : state :=
  match run calls s ins with
  | Some s' => s'
  | None => init
  end.

(** One child; a SIGINT arrives right after line 140 and the handler has
    just run line 130. *)
Definition flagged_inputs : list input := launch_inputs 1 ++ [Sigint; Go].
Definition flagged : state := Eval vm_compute in final plan1 init flagged_inputs.

(** ... and the rest of that run, to the end of [deploy]. *)
Definition flagged_rest : list input :=
  tl (handler_inputs 1 [false]) ++ [Go; Go; Go; Go; Go].
Definition flagged_end : state :=
  Eval vm_compute in final plan1 flagged flagged_rest.

(** Three children that all become ready: [deploy] waits at line 153. *)
Definition ready3_inputs : list input :=
  launch_inputs 3
    ++ [Go; Go; Resolved Ready; Go; Go; Resolved Ready; Go; Go; Resolved Ready]
    ++ [Go; Go].
Definition ready3 : state := Eval vm_compute in final plan3 init ready3_inputs.

(** Three children that all become ready; a SIGINT arrives while
    [deploy] waits at line 153, and the run goes to its end. *)
Definition clean_end_inputs : list input :=
  ready3_inputs ++ Sigint :: handler_inputs 3 [true; true; true] ++ [Go; Go].
Definition clean_end : state :=
  Eval vm_compute in final plan3 init clean_end_inputs.

(** Three children; [Popen] raises for the second. *)
Definition spawn_failure_inputs : list input := [Spawned; Go; SpawnError].
Definition spawn_failure_end : state :=
  Eval vm_compute in final plan3 init spawn_failure_inputs.

(** One child, its probe in flight. *)
Definition in_flight_inputs : list input := launch_inputs 1 ++ [Go; Go].
Definition in_flight : state :=
  Eval vm_compute in final plan1 init in_flight_inputs.


(** One child, whose probe is in flight when a SIGINT arrives; the
    handler runs to its end. *)
Definition interrupted_probe_inputs : list input :=
  launch_inputs 1 ++ [Go; Go; Sigint] ++ handler_inputs 1 [true].

(** One child, whose probe is in flight when a SIGINT arrives; the
    handler runs to its end and the probe then ends cancelled. *)
Definition cancelled_end_inputs : list input :=
  interrupted_probe_inputs ++ [Resolved Cancelled].
Definition cancelled_end : state :=
  Eval vm_compute in final plan1 init cancelled_end_inputs.

(** Three children, the first is ready and the probe of the second is in
    flight. *)
Definition second_in_flight_inputs : list input :=
  launch_inputs 3 ++ [Go; Go; Resolved Ready; Go; Go].
Definition second_in_flight : state :=
  Eval vm_compute in final plan3 init second_in_flight_inputs.

(** Three children, the second never becomes ready; the handler called at
    line 150 has run to its end and the main flow is back in the loop. *)
Definition after_timeout_inputs : list input :=
  launch_inputs 3
    ++ [Go; Go; Resolved Ready; Go; Go; Resolved Timeout; Go; Go]
    ++ handler_inputs 3 [true; true; true].

(** Three children, the second never becomes ready; the run to the end of
    [deploy], no SIGINT. *)
Definition timeout_end_inputs : list input :=
  after_timeout_inputs ++ [Go; Go; Go; Go; Go].
Definition timeout_end : state :=
  Eval vm_compute in final plan3 init timeout_end_inputs.

(** Three children, the second never becomes ready (line 150 calls the
    handler, which cancels the future); a SIGINT arrives while that
    activation waits for the second listener: the second activation
    signals every child again, and its line 135 raises. *)
Definition double_trigger_inputs : list input :=
  launch_inputs 3
    ++ [Go; Go; Resolved Ready; Go; Go; Resolved Timeout; Go; Go]
    ++ [Go; Go; Go; Go; Go; Go; Go; Joined true]
    ++ Sigint :: cancel_inputs 3.
Definition double_trigger : state :=
  Eval vm_compute in final plan3 init double_trigger_inputs.


(** One child that becomes ready; a SIGINT at line 153; the relay thread
    does not end within the 5 units of its [join], or does. *)
Definition slow_relay_inputs : list input :=
  launch_inputs 1 ++ [Go; Go; Resolved Ready; Go; Go]
    ++ Sigint :: handler_inputs 1 [false] ++ [Go; Go].
Definition slow_relay : state :=
  Eval vm_compute in final plan1 init slow_relay_inputs.
Definition quick_relay : state :=
  Eval vm_compute in final plan1 init (map all_joined slow_relay_inputs).

(** ** The launch plan: lines 88-115 of [deploy] *)

(** The attributes of [conf] that [deploy] reads; [deployment_parser]
    (lines 157-183) declares them. *)
Record conf := {
  download_data : bool;
  events_address : option string;
  events_port : string;
  include_rtf : bool;
  discovery : bool;
  rtf_port : string;
  sentences_port : string;
  tagger_port : string;
  acronyms_port : string;
  concepts_port : string;
  negation_port : string
}.

(** The defaults of [deployment_parser]. *)
Definition default_conf : conf :=
  {| download_data := false; events_address := None; events_port := "10100";
     include_rtf := false; discovery := false; rtf_port := "10101";
     sentences_port := "10102"; tagger_port := "10103";
     acronyms_port := "10104"; concepts_port := "10105";
     negation_port := "10106" |}.

(** An element of the list [calls]: lines 91-99 and 102 put tuples
    (command, port) in it, line 107 appends a bare list of strings. *)
Inductive entry :=
| Pair (c : call) (port : string)
| Bare (l : list string).

(** The exceptions of the lines before 116. [AttributeError] carries the
    attribute that is missing. *)
Inductive py_exn :=
| ValueError
| AttributeError (attribute : string)
| OSError
| URLError
| BadZipFile
| SystemExit.

Definition java (jar_path class : string) : call :=
  ["java"; "-Xms128m"; "-Xmx8g"; "-cp"; jar_path; class].

(** Lines 90-100. *)
Definition processor_calls (python_exe jar_path : string) (c : conf)
  : list entry :=
  [ Pair [python_exe; "-m"; "biomedicus.sentences.bi_lstm"; "processor"]
      (sentences_port c);
    Pair (java jar_path "edu.umn.biomedicus.tagging.tnt.TntPosTaggerProcessor")
      (tagger_port c);
    Pair (java jar_path "edu.umn.biomedicus.acronym.AcronymDetectorProcessor")
      (acronyms_port c);
    Pair (java jar_path "edu.umn.biomedicus.concepts.DictionaryConceptDetector")
      (concepts_port c);
    Pair [python_exe; "-m"; "biomedicus.negation.negex"] (negation_port c) ].

(** Lines 101-105: the list, and the variable [events_address], which
    holds a string on both branches. *)
Definition with_events (python_exe : string) (c : conf) (es : list entry)
  : list entry * string :=
  match events_address c with
  | None =>
      (Pair [python_exe; "-m"; "mtap"; "events"] (events_port c) :: es,
       ("127.0.0.1:" ++ events_port c)%string)
  | Some a => (es, a)
  end.

(** Lines 106-108. *)
Definition with_rtf (jar_path : string) (c : conf) (ea : string)
  (es : list entry) : list entry :=
  if include_rtf c
  then es ++ [Bare ["java"; "-cp"; jar_path;
                    "edu.umn.biomedicus.rtf.RtfProcessor";
                    "-p"; rtf_port c; "--events"; ea]]
  else es
.

(** One turn of the loop of lines 110-115 on the [i]-th element. The
    target [(call, port)] unpacks a tuple of two; a list of two strings
    unpacks too, and [call.extend] then fails on a string; a list of any
    other length does not unpack. [events_address] is never [None] here,
    so the test of line 112 is [i > 0]. *)
Definition extend_entry (i : nat) (ea : string) (register : bool) (x : entry)
  : py_exn + (call * string) :=
  match x with
  | Pair c port =>
      inr (c ++ ["-p"; port]
             ++ (if (0 <? i)%nat then ["--events"; ea] else [])
             ++ (if register then ["--register"] else []),
           port)
  | Bare [_; _] => inl (AttributeError "extend")
  | Bare _ => inl ValueError
  end.

(** Lines 110-115. *)
Fixpoint extend_calls (i : nat) (ea : string) (register : bool)
  (es : list entry) : py_exn + plan :=
  match es with
  | [] => inr []
  | x :: es' =>
      match extend_entry i ea register x with
      | inl err => inl err
      | inr cp =>
          match extend_calls (S i) ea register es' with
          | inl err => inl err
          | inr pl => inr (cp :: pl)
          end
      end
  end.

(** Lines 88-115: [calls] as line 116 finds it, or the exception. *)
Definition build_calls (python_exe jar_path : string) (c : conf)
  : py_exn + plan :=
  let '(es, ea) := with_events python_exe c (processor_calls python_exe jar_path c) in
  extend_calls 0 ea (discovery c) (with_rtf jar_path c ea es).

(** The address the processors are told the events service is at. *)
Definition events_address_of (c : conf) : string :=
  match events_address c with
  | None => ("127.0.0.1:" ++ events_port c)%string
  | Some a => a
  end.

(** The ports of the services [deploy] starts, in the order of [calls]. *)
Definition service_ports (c : conf) : list string :=
  (match events_address c with
   | None => [events_port c]
   | Some _ => []
   end)
    ++ [sentences_port c; tagger_port c; acronyms_port c; concepts_port c;
        negation_port c].

(** An external events service, and the RTF processor asked for. *)
Definition external_events_conf : conf :=
  {| download_data := false; events_address := Some "10.0.0.7:9000";
     events_port := "10100"; include_rtf := false; discovery := true;
     rtf_port := "10101"; sentences_port := "10102"; tagger_port := "10103";
     acronyms_port := "10104"; concepts_port := "10105";
     negation_port := "10106" |}.

Definition rtf_conf : conf :=
  {| download_data := false; events_address := None; events_port := "10100";
     include_rtf := true; discovery := false; rtf_port := "10101";
     sentences_port := "10102"; tagger_port := "10103";
     acronyms_port := "10104"; concepts_port := "10105";
     negation_port := "10106" |}.

(** The plan of the default configuration, and a run on it in which the
    events service is found ready and the probe of the sentences
    processor is in flight. *)
Definition default_plan : plan :=
  Eval vm_compute in
    match build_calls "python" "b.jar" default_conf with
    | inr pl => pl
    | inl _ => []
    end.
Definition default_run_inputs : list input :=
  launch_inputs 6 ++ [Go; Go; Resolved Ready; Go; Go].
Definition default_run : state :=
  Eval vm_compute in final default_plan init default_run_inputs.

(** ** The models: [check_data] and [download_data_to], lines 36-80 *)

(** A path, by its components. *)
Definition path := list string.

(** What the two functions find outside: the environment variable, the
    home directory, the two keys of the configuration that [load_config]
    returns, the file system (the same at line 46 and at line 73), what
    the user types, and how the calls of lines 69-78 end. *)
Record world := {
  env_data : option path;         (* os.environ['BIOMEDICUS_DATA']; None: KeyError *)
  home : path;                    (* Path.home() *)
  data_url : string;              (* config['data.data_url'] *)
  data_version : string;          (* config['data.version'] *)
  path_exists : path -> bool;     (* data.exists() *)
  read_version : path -> py_exn + string;
                                  (* (data / 'VERSION.txt').read_text() *)
  answer : string;                (* what input(prompt) returns *)
  hooks : list (Z * Z);           (* the calls of the report hook by urlretrieve:
                                     block size and total size *)
  retrieved : py_exn + string;    (* urlretrieve raises, or returns the file name *)
  mkdir_raises : option py_exn;   (* data.mkdir(parents=True, exist_ok=False) *)
  zip_raises : option py_exn;     (* ZipFile(local_filename) *)
  extract_raises : option py_exn  (* zf.extractall(path=str(data)) *)
}.

(** What the two functions do: the calls they make, in order. *)
Inductive io :=
| SetEnv (p : path)                      (* 41 *)
| PrintModelsMissing                     (* 47-52 *)
| Input                                  (* 54: input(prompt) *)
| PrintStarting (url : string)           (* 68 *)
| Urlretrieve (url : string)             (* 69 *)
| BarNew (total : Z)                     (* 63 *)
| BarUpdate (n : Z)                      (* 64 *)
| BarClose                               (* 71 *)
| Mkdir (p : path)                       (* 75 *)
| PrintExtracting                        (* 77 *)
| ExtractAll (file : string) (p : path)  (* 78 *)
| Unlink (file : string).                (* 80 *)

(** Lines 61-66, the hook [report] on the reports of one download;
    [bar] tells whether [report.bar] is set. *)
Fixpoint report (bar : bool) (hs : list (Z * Z)) : list io :=
  match hs with
  | [] => []
  | (read, total) :: hs' =>
      (if bar then [] else [BarNew total]) ++ BarUpdate read :: report true hs'
  end.

(** Lines 72-78, inside the second [try]. [pathlib.Path] has no method
    [rmtree]: line 74 raises AttributeError whenever it is reached. *)
Definition install (w : world) (file : string) (data : path)
  : list io * (py_exn + unit) :=
  if path_exists w data then ([], inl (AttributeError "rmtree"))
  else match mkdir_raises w, zip_raises w, extract_raises w with
       | Some x, _, _ => ([Mkdir data], inl x)
       | None, Some x, _ => ([Mkdir data], inl x)
       | None, None, Some x =>
           ([Mkdir data; PrintExtracting; ExtractAll file data], inl x)
       | None, None, None =>
           ([Mkdir data; PrintExtracting; ExtractAll file data], inr tt)
       end.

(** Lines 60-80. The first [finally] closes [report.bar], which is still
    [None] when the hook was never called: the AttributeError of line 71
    then replaces whatever line 69 did. The second [finally] removes the
    file. *)
Definition download_data_to (w : world) (download_url : string) (data : path)
  : list io * (py_exn + unit) :=
  let started :=
    [PrintStarting download_url; Urlretrieve download_url]
      ++ report false (hooks w) in
  match hooks w with
  | [] => (started, inl (AttributeError "close"))
  | _ :: _ =>
      match retrieved w with
      | inl err => (started ++ [BarClose], inl err)
      | inr file =>
          let '(evs, r) := install w file data in
          (started ++ [BarClose] ++ evs ++ [Unlink file], r)
      end
  end.

(** Lines 37-41: the directory of the models. *)
Definition data_path (w : world) : path :=
  match env_data w with
  | Some p => p
  | None => home w ++ [".biomedicus"; "data"]
  end.

(** Line 46: the models are missing or of another version; the test
    raises when the directory is there and its VERSION.txt cannot be
    read. *)
Definition models_missing (w : world) : py_exn + bool :=
  if negb (path_exists w (data_path w)) then inr true
  else match read_version w (data_path w) with
       | inl err => inl err
       | inr v => inr (negb (String.eqb v (data_version w)))
       end.

(** Line 54: the answers that start the download. *)
Definition accepts (a : string) : bool :=
  existsb (String.eqb a) ["Y"; "y"; "Yes"; "yes"].

(** Lines 36-57. [exit()] raises SystemExit. *)
Definition check_data (w : world) (download : bool)
  : list io * (py_exn + unit) :=
  let env := match env_data w with
             | Some _ => []
             | None => [SetEnv (data_path w)]
             end in
  match models_missing w with
  | inl err => (env, inl err)
  | inr false => (env, inr tt)
  | inr true =>
      if download
      then let '(evs, r) := download_data_to w (data_url w) (data_path w) in
           (env ++ [PrintModelsMissing] ++ evs, r)
      else if accepts (answer w)
           then let '(evs, r) := download_data_to w (data_url w) (data_path w) in
                (env ++ [PrintModelsMissing; Input] ++ evs, r)
           else (env ++ [PrintModelsMissing; Input], inl SystemExit)
  end.

(** ** [deploy] as a whole, lines 83-154 *)

Inductive deploy_result :=
| ReturnedEarly                        (* 86-87: ValueError of check_data *)
| SetupRaised (x : py_exn)             (* 85: any other exception of it *)
| PlanRaised (x : py_exn)              (* 88-115 *)
| Launched (pl : plan) (r : option state).  (* 116-154, on the plan *)

(** [deploy(conf)]: the models are checked, the plan is built, and the
    rest is the machine above, [deploy], on that plan. *)
Definition deploy_conf (w : world) (python_exe jar_path : string) (c : conf)
  (ins : list input) : list io * deploy_result :=
  match check_data w (download_data c) with
  | (evs, inl ValueError) => (evs, ReturnedEarly)
  | (evs, inl x) => (evs, SetupRaised x)
  | (evs, inr tt) =>
      match build_calls python_exe jar_path c with
      | inl x => (evs, PlanRaised x)
      | inr pl => (evs, Launched pl (deploy pl ins))
      end
  end.

(** The calls of a trace that write below the directory of the models. *)
Definition writes (evs : list io) : list path :=
  flat_map (fun ev => match ev with
                      | Mkdir p => [p]
                      | ExtractAll _ p => [p]
                      | _ => []
                      end) evs.

(** The files a trace removes. *)
Definition unlinked (evs : list io) : list string :=
  flat_map (fun ev => match ev with
                      | Unlink f => [f]
                      | _ => []
                      end) evs.

(** What a trace does to the progress bar. *)
Definition is_bar_call (ev : io) : bool :=
  match ev with
  | BarNew _ | BarUpdate _ | BarClose => true
  | _ => false
  end.

Definition bar_calls (evs : list io) : list io := filter is_bar_call evs.

(** No models yet, the user at the prompt; a download of two reports. *)
Definition empty_world : world :=
  {| env_data := None; home := ["home"; "ann"];
     data_url := "https://example.org/models.zip"; data_version := "2";
     path_exists := fun _ => false; read_version := fun _ => inl OSError;
     answer := "y"; hooks := [(8192, 20000); (8192, 20000)]%Z;
     retrieved := inr "/tmp/tmpab12"; mkdir_raises := None; zip_raises := None;
     extract_raises := None |}.

(** Models of version 1 in the directory BIOMEDICUS_DATA names, version 2
    wanted. *)
Definition outdated_world : world :=
  {| env_data := Some ["srv"; "models"]; home := ["home"; "ann"];
     data_url := "https://example.org/models.zip"; data_version := "2";
     path_exists := fun _ => true; read_version := fun _ => inr "1";
     answer := "Yes"; hooks := [(8192, 20000)]%Z;
     retrieved := inr "/tmp/tmpab12"; mkdir_raises := None; zip_raises := None;
     extract_raises := None |}.

(** No models, and the user declines. *)
Definition declining_world : world :=
  {| env_data := None; home := ["home"; "ann"];
     data_url := "https://example.org/models.zip"; data_version := "2";
     path_exists := fun _ => false; read_version := fun _ => inl OSError;
     answer := "n"; hooks := []; retrieved := inl URLError;
     mkdir_raises := None; zip_raises := None; extract_raises := None |}.

(** ** The model: [_listen], lines 30-33 *)

(** A child as its listener sees it: the lines that the iteration of
    line 31 yields until the child closes its output, and the status
    that [process.wait()] returns. *)
Record child := {
  stdout : list (list Byte.byte);
  wait_status : Z
}.

Inductive listen_io :=
| Print (text : string)   (* 32 *)
| Wait.                   (* 33 *)

Inductive listen_result :=
| Exited (status : Z)
| DecodeRaised.           (* 32: UnicodeDecodeError of line.decode() *)

(** Lines 31-32: the loop; [false] when [decode] raised. *)
Fixpoint relay (decode : list Byte.byte -> option string)
  (lines : list (list Byte.byte)) : list listen_io * bool :=
  match lines with
  | [] => ([], true)
  | line :: lines' =>
      match decode line with
      | None => ([], false)
      | Some text =>
          let '(evs, ok) := relay decode lines' in (Print text :: evs, ok)
      end
  end.

(** Lines 30-33. *)
Definition _listen (decode : list Byte.byte -> option string) (process : child)
  : list listen_io * listen_result :=
  let '(evs, ok) := relay decode (stdout process) in
  if ok then (evs ++ [Wait], Exited (wait_status process))
  else (evs, DecodeRaised).

(** ** What the children were sent when [deploy] ends *)

(** Each of the [n] children was sent a termination request. *)
Definition all_signalled (n : nat) (tr : list event) : Prop :=
  forall j, j < n -> 1 <= signals_to j tr.

(** What an activation of the handler that is at [h] has sent: its loop
    of lines 132-133 is at child [j], or over. *)
Definition sent_by (n : nat) (tr : list event) (h : hpc) : Prop :=
  match h with
  | HFlag | HPrint => True
  | HSignal j => forall i, i < j -> i < n -> 1 <= signals_to i tr
  | HCancel | HJoin _ | HSet => all_signalled n tr
  end.

(** The event is set, and the future cancelled, only after a whole loop
    of termination requests. *)
Definition signalled_inv (calls : plan) (s : state) : Prop :=
  let n := List.length calls in
  Forall (sent_by n (trace s)) (handlers s)
  /\ (e s = true -> all_signalled n (trace s))
  /\ (future_cancelled s = true -> all_signalled n (trace s)).

(** The inputs that make [deploy] leave its course: a SIGINT, a [Popen]
    that raises, a probe that times out. *)
Definition is_trigger (a : input) : bool :=
  match a with
  | Sigint | SpawnError | Resolved Timeout => true
  | _ => false
  end.

(** [deploy] is on its course: launching, probing or waiting, with
    nothing of the shutdown started. *)
Definition on_course (s : state) : Prop :=
  handlers s = [] /\ shutting_down s = false /\ e s = false
  /\ future_cancelled s = false
  /\ (future_matured s = false -> in_result s = false -> future s = None)
  /\ match main s with
     | MFailed _ | MCallHandler _ | MDoneShutting | MFinished _ => False
     | _ => True
     end
  /\ Forall (fun l => l = DoneStarting) (printed (trace s))
  /\ forall j, signals_to j (trace s) = 0.

(** * Proofs *)

Lemma run_app calls s ins1 ins2 :
  run calls s (ins1 ++ ins2) =
  match run calls s ins1 with
  | Some s' => run calls s' ins2
  | None => None
  end.
Proof.
  revert s. induction ins1 as [|a ins1 IH]; intros s; simpl; [reflexivity|].
  destruct (step calls s a); [apply IH | reflexivity].
Qed.

(** A property that holds on entry and that every step keeps holds
    throughout every run. *)
Lemma run_invariant calls (P : state -> Prop) :
  (forall s a s', P s -> step calls s a = Some s' -> P s') ->
  forall ins s s', P s -> run calls s ins = Some s' -> P s'.
Proof.
  intros Hstep. induction ins as [|a ins IH]; intros s s' HP Hrun; simpl in Hrun.
  - injection Hrun as <-. exact HP.
  - destruct (step calls s a) as [s1|] eqn:E; [|discriminate].
    eapply IH; [eapply Hstep; eauto | exact Hrun].
Qed.

(** Case analysis on a step that was taken: one goal per statement. *)
Ltac step_cases H :=
  unfold step, connect, step_main, step_handler in H;
  repeat match type of H with
         | (match ?x with _ => _ end) = _ =>
             destruct x eqn:?; cbv beta iota in H
         end;
  try discriminate H;
  injection H as <-.

Ltac unfold_updates :=
  unfold hraise, hgoto, hreturn, hcall, goto, emit, set_handlers,
    set_shutting_down, set_e, set_future, set_installed, append_child in *;
  cbn [processes process_listeners installed e shutting_down future main
       handlers trace tl] in *.

Lemma seq_snoc n : seq 0 (S n) = seq 0 n ++ [n].
Proof. rewrite seq_S. reflexivity. Qed.

Lemma nth_error_none_ge (calls : plan) i :
  nth_error calls i = None -> i <= List.length calls -> i = List.length calls.
Proof. intros H Hle. apply nth_error_None in H. lia. Qed.

Lemma nth_error_some_lt (calls : plan) i x :
  nth_error calls i = Some x -> i < List.length calls.
Proof. intros H. apply nth_error_Some. congruence. Qed.

Lemma control_inv_init calls : control_inv calls init.
Proof. cbv; repeat split; lia. Qed.

(** The flag is set as soon as the innermost activation is past line 130. *)
Lemma flag_set_past_130 (b : bool) h hs :
  b = true \/ Forall (fun h => h = HFlag) (h :: hs) ->
  h <> HFlag -> b = true.
Proof.
  intros [H|H] Hne; [exact H|]. inversion H; subst. congruence.
Qed.

Lemma flag_or_tail (b : bool) h hs :
  b = true \/ Forall (fun h => h = HFlag) (h :: hs) ->
  b = true \/ Forall (fun h => h = HFlag) hs.
Proof. intros [H|H]; [left; exact H | right; inversion H; assumption]. Qed.

Ltac flag_facts :=
  repeat match goal with
    | E : handlers ?s = ?h :: ?hs,
      H : _ \/ Forall _ (handlers ?s) |- _ => rewrite E in H
    end;
  try match goal with
    | H : shutting_down ?s = true \/ Forall _ (?h :: ?hs) |- _ =>
        let F := fresh "Hflag" in
        assert (F : shutting_down s = true)
          by (apply (flag_set_past_130 _ h hs H); discriminate)
    end;
  try match goal with
    | H : shutting_down ?s = true \/ Forall _ (?h :: ?hs) |- _ =>
        apply flag_or_tail in H
    end.

Lemma control_inv_step calls s a s' :
  control_inv calls s -> step calls s a = Some s' -> control_inv calls s'.
Proof.
  intros Hinv Hstep. unfold control_inv in *.
  step_cases Hstep; unfold_updates.
  all: try match goal with E : main _ = _ |- _ => rewrite E in * end.
  all: try (destruct (main s) as [ | | | | | | | | | | | [|[]]] eqn:Hm;
            unfold finished in *; try rewrite Hm in *; try discriminate).
  all: unfold armed, quiet, children, future_cancelled, future_matured,
         mature, in_result in *;
    unfold_updates.
  all: try match goal with E : main _ = _ |- _ => rewrite E in * end.
  all: try discriminate.
  all: repeat match goal with
         | H : _ /\ _ |- _ => destruct H
         | H : exists _, _ |- _ => destruct H
         | H : future ?s = Some _, H' : future ?s = Some _ |- _ =>
             rewrite H in H'
         | H : Some ?f = Some _ |- _ => is_var f; injection H as ->
         | H : handlers ?s = [] |- _ => rewrite H in *; clear H
         | H : future ?s = Some _ |- _ => rewrite H in *
         | H : _ || _ = false |- _ => apply orb_false_elim in H
         | H : nth_error _ _ = Some _ |- _ => apply nth_error_some_lt in H
         | H : nth_error _ ?i = None, L : ?i <= _ |- _ =>
             apply nth_error_none_ge in H; [subst i | exact L]
         end.
  all: flag_facts.
  all: try rewrite seq_snoc.
  all: cbn [chan cancelled matured] in *.
  all: try solve [intuition (try congruence; try lia; eauto)].
Qed.

Lemma control_inv_run calls ins s :
  deploy calls ins = Some s -> control_inv calls s.
Proof.
  intros H. eapply run_invariant with (P := control_inv calls);
    [apply control_inv_step | apply control_inv_init | exact H].
Qed.

(** ** The flag *)

Lemma flag_kept_by_step calls s a s' :
  control_inv calls s -> shutting_down s = true ->
  step calls s a = Some s' -> shutting_down s' = true.
Proof.
  intros Hinv Hflag Hstep.
  step_cases Hstep; unfold_updates; try congruence.
  unfold control_inv, quiet in Hinv.
  match goal with E : main _ = MInstall |- _ => rewrite E in Hinv end.
  destruct Hinv as [(_ & Hf & _) _]. congruence.
Qed.

(** C9. Once [shutting_down[0]] is true in a run of [deploy], it is true
    in every later state of that run: no statement of the main flow, of
    the handler or of the shutdown path resets it. *)
Theorem shutting_down_monotonic calls ins1 ins2 s1 s2 :
  deploy calls ins1 = Some s1 ->
  run calls s1 ins2 = Some s2 ->
  shutting_down s1 = true ->
  shutting_down s2 = true.
Proof.
  intros H1 H2 Hflag.
  apply control_inv_run in H1.
  assert (H : control_inv calls s2 /\ shutting_down s2 = true);
    [|exact (proj2 H)].
  eapply run_invariant
    with (P := fun s => control_inv calls s /\ shutting_down s = true);
    [|split; [exact H1 | exact Hflag]|exact H2].
  intros s a s' [Hi Hf] Hs. split;
    [eapply control_inv_step | eapply flag_kept_by_step]; eauto.
Qed.

Lemma shutting_down_monotonic_witness :
  deploy plan1 flagged_inputs = Some flagged
  /\ run plan1 flagged flagged_rest = Some flagged_end
  /\ shutting_down flagged = true
  /\ main flagged_end = MFinished Returned
  /\ shutting_down flagged_end = true.
Proof.
  assert (H1 : deploy plan1 flagged_inputs = Some flagged)
    by (vm_compute; reflexivity).
  assert (H2 : run plan1 flagged flagged_rest = Some flagged_end)
    by (vm_compute; reflexivity).
  split; [exact H1|]. split; [exact H2|].
  split; [reflexivity|]. split; [reflexivity|].
  exact (shutting_down_monotonic plan1 _ _ _ _ H1 H2 eq_refl).
Defined.

(** ** One activation of the handler *)

Lemma skipn_cons_nth {A} (l : list A) j :
  j < List.length l ->
  exists x, nth_error l j = Some x /\ skipn j l = x :: skipn (S j) l.
Proof.
  revert j. induction l as [|y l IH]; intros j Hj; simpl in Hj; [lia|].
  destruct j as [|j]; [exists y; split; reflexivity|].
  destruct (IH j) as (x & Hx & Hs); [lia|].
  exists x. split; [exact Hx | exact Hs].
Qed.

Lemma nth_error_length_none {A} (l : list A) : nth_error l (List.length l) = None.
Proof. apply nth_error_None. lia. Qed.

Lemma running_not_finished s : running (main s) -> finished s = false.
Proof. unfold running, finished. destruct (main s); tauto. Qed.

(** Lines 132-133, from the [j]-th process on. *)
Lemma signal_loop calls ps ls inst ev sd f m hs k :
  running m ->
  forall j tr,
    j + k = List.length ps ->
    run calls (Build_state ps ls inst ev sd f m (HSignal j :: hs) tr)
      (repeat Go k)
    = Some (Build_state ps ls inst ev sd f m (HSignal (List.length ps) :: hs)
              (tr ++ map ESignal (skipn j ps))).
Proof.
  intros Hm. induction k as [|k IH]; intros j tr Hj.
  - replace j with (List.length ps) by lia.
    rewrite skipn_all, app_nil_r. reflexivity.
  - destruct (skipn_cons_nth ps j) as (x & Hx & Hs); [lia|].
    cbn [repeat run]. unfold step.
    rewrite running_not_finished by exact Hm.
    cbn. rewrite Hx. unfold_updates.
    rewrite IH by lia. rewrite Hs. cbn [map].
    rewrite <- app_assoc. reflexivity.
Qed.

(** Lines 136-137, from the [j]-th listener on. *)
Lemma join_loop calls ps ls inst ev sd f m hs joins :
  running m ->
  forall j tr,
    j + List.length joins = List.length ls ->
    run calls (Build_state ps ls inst ev sd f m (HJoin j :: hs) tr)
      (map Joined joins)
    = Some (Build_state ps ls inst ev sd f m (HJoin (List.length ls) :: hs)
              (tr ++ join_events (skipn j ls) joins)).
Proof.
  intros Hm. induction joins as [|b joins IH]; intros j tr Hj; simpl in Hj.
  - replace j with (List.length ls) by lia.
    rewrite skipn_all. unfold join_events. cbn. rewrite app_nil_r. reflexivity.
  - destruct (skipn_cons_nth ls j) as (x & Hx & Hs); [lia|].
    cbn [map run]. unfold step.
    rewrite running_not_finished by exact Hm.
    cbn. rewrite Hx. unfold_updates.
    rewrite IH by lia. rewrite Hs. unfold join_events. cbn.
    rewrite <- app_assoc. reflexivity.
Qed.

(** Lines 129-138 in one go: an activation that no further SIGINT
    interrupts sets the flag, prints, signals every process, cancels the
    future if there is one, joins every listener and sets the event. *)
Lemma handler_runs calls s hs joins :
  running (main s) ->
  handlers s = HFlag :: hs ->
  List.length joins = List.length (process_listeners s) ->
  cancel_raises (future s) = false ->
  run calls s (handler_inputs (List.length (processes s)) joins)
  = Some (after_handler hs s joins).
Proof.
  destruct s as [ps ls inst ev sd f m hs0 tr]. cbn. intros Hm -> Hlen Hc.
  unfold handler_inputs, after_handler, handler_events. cbn [app].
  assert (Hfin : forall ps ls inst ev sd f hs tr,
             finished (Build_state ps ls inst ev sd f m hs tr) = false)
    by (intros; apply running_not_finished; exact Hm).
  cbn [run]. unfold step at 1. rewrite Hfin. cbn. unfold_updates.
  unfold step at 1. rewrite Hfin. cbn. unfold_updates.
  rewrite run_app, (signal_loop calls ps ls inst ev true f m hs _ Hm 0) by lia.
  cbn [skipn run]. unfold step at 1. rewrite Hfin. cbn.
  rewrite nth_error_length_none. unfold_updates.
  unfold step at 1. rewrite Hfin. cbn.
  destruct f as [[c cd md]|]; cbn [matured cancelled chan] in *;
    [destruct md; [|destruct cd; [discriminate Hc|]]|];
    unfold_updates; cbn [cancel_future cancel_events matured chan];
    rewrite run_app,
      (join_loop calls ps ls inst ev true _ m hs joins Hm 0) by lia;
    cbn [skipn run]; unfold step at 1; rewrite Hfin; cbn;
    rewrite nth_error_length_none; unfold_updates;
    unfold step at 1; rewrite Hfin; cbn; unfold_updates;
    repeat rewrite <- app_assoc; reflexivity.
Qed.


(** ** The trace *)

Lemma probes_app tr1 tr2 : probes (tr1 ++ tr2) = probes tr1 ++ probes tr2.
Proof. unfold probes. apply flat_map_app. Qed.

Lemma launch_events_snoc calls n c p :
  nth_error calls n = Some (c, p) ->
  launch_events calls (S n) = launch_events calls n ++ [ESpawn n c; ERelay n].
Proof.
  intros H. unfold launch_events. rewrite seq_snoc, flat_map_app. cbn.
  rewrite H. reflexivity.
Qed.

Lemma launch_events_launch calls n :
  Forall (fun ev => is_launch ev = true) (launch_events calls n).
Proof.
  unfold launch_events. induction n as [|n IH]; [constructor|].
  rewrite seq_snoc, flat_map_app. apply Forall_app. split; [exact IH|].
  cbn. destruct (nth_error calls n) as [[c p]|]; repeat constructor.
Qed.

Lemma probed_start calls :
  probed calls (launch_events calls (List.length calls)) 0.
Proof.
  exists []. rewrite app_nil_r. repeat split. constructor.
Qed.

Lemma probed_silent calls tr k ev :
  probed calls tr k -> is_launch ev = false -> probes [ev] = [] ->
  probed calls (tr ++ [ev]) k.
Proof.
  intros (rest & -> & Hl & Hp) Hev Hpe. exists (rest ++ [ev]).
  rewrite app_assoc. split; [reflexivity|]. split.
  - apply Forall_app. split; [exact Hl | repeat constructor; exact Hev].
  - rewrite probes_app, Hpe, app_nil_r. exact Hp.
Qed.

Lemma probed_probe calls tr k c port :
  probed calls tr k -> nth_error calls k = Some (c, port) ->
  probed calls (tr ++ [EProbe k (address port) probe_timeout]) (S k).
Proof.
  intros (rest & -> & Hl & Hp) Hk. eexists. rewrite <- app_assoc.
  split; [reflexivity|]. split.
  - apply Forall_app. split; [exact Hl | repeat constructor].
  - rewrite probes_app, Hp, seq_snoc, map_app. cbn. unfold probe_at.
    rewrite (nth_error_nth _ _ _ Hk). reflexivity.
Qed.

Lemma trace_inv_init calls : trace_inv calls init.
Proof. reflexivity. Qed.

Lemma trace_inv_step calls s a s' :
  control_inv calls s -> trace_inv calls s ->
  step calls s a = Some s' -> trace_inv calls s'.
Proof.
  intros Hc Hinv Hstep. unfold trace_inv, control_inv in *.
  step_cases Hstep; unfold_updates.
  all: try match goal with E : main _ = _ |- _ => rewrite E in * end.
  all: try (destruct (main s) as [ | | | | | | | | | | | [|[]]] eqn:Hm;
            unfold finished in *; try rewrite Hm in *; try discriminate).
  all: unfold armed, quiet in *.
  all: repeat match goal with
         | H : _ /\ _ |- _ => destruct H
         | H : exists _, _ |- _ => destruct H
         | H : nth_error _ ?i = None, L : ?i <= _ |- _ =>
             apply nth_error_none_ge in H; [subst i | exact L]
         end.
  all: try congruence.
  all: try assumption.
  all: try match goal with
         | H : trace ?s = _ |- Forall _ (trace ?s) =>
             rewrite H; try apply Forall_app; try split;
             try apply launch_events_launch; repeat constructor
         end.
  all: try match goal with
         | H : shutting_down ?s = false -> ?k = _,
           E : shutting_down ?s = false |- _ => specialize (H E); subst k
         end.
  all: try assumption.
  all: try solve [eapply probed_probe; eassumption].
  all: try solve [eexists; repeat split; eauto using probed_start; try lia; congruence].
  all: try solve [repeat (apply probed_silent; [|reflexivity|reflexivity]); assumption].
  all: try solve [eexists; split;
         [repeat (apply probed_silent; [|reflexivity|reflexivity]); eassumption
         | try split; try lia; try congruence; auto]].
  all: try solve [erewrite launch_events_snoc by eassumption;
         match goal with H : trace _ = _ |- _ => rewrite H end;
         rewrite <- app_assoc; repeat f_equal; congruence].
  - exists 0. rewrite Hinv. eauto using probed_start.
  - rewrite <- H7 by reflexivity. assumption.
  - do 2 eexists. split; [eassumption|]. rewrite Hinv. reflexivity.
Qed.

Lemma invariants_run calls ins s :
  deploy calls ins = Some s -> control_inv calls s /\ trace_inv calls s.
Proof.
  intros H.
  eapply run_invariant
    with (P := fun s => control_inv calls s /\ trace_inv calls s);
    [|split; [apply control_inv_init | apply trace_inv_init]|exact H].
  intros s0 a s1 [Hc Ht] Hs. split;
    [eapply control_inv_step | eapply trace_inv_step]; eauto.
Qed.

(** ** Launch, then probes *)

Lemma spawn_count_app tr1 tr2 :
  spawn_count (tr1 ++ tr2) = spawn_count tr1 + spawn_count tr2.
Proof. unfold spawn_count. rewrite filter_app, length_app. reflexivity. Qed.

Lemma relay_count_app tr1 tr2 :
  relay_count (tr1 ++ tr2) = relay_count tr1 + relay_count tr2.
Proof. unfold relay_count. rewrite filter_app, length_app. reflexivity. Qed.

Lemma signals_to_app j tr1 tr2 :
  signals_to j (tr1 ++ tr2) = signals_to j tr1 + signals_to j tr2.
Proof. unfold signals_to. rewrite filter_app, length_app. reflexivity. Qed.

Lemma launch_counts calls n :
  n <= List.length calls ->
  spawn_count (launch_events calls n) = n
  /\ relay_count (launch_events calls n) = n.
Proof.
  induction n as [|n IH]; intros Hn; [split; reflexivity|].
  destruct (nth_error calls n) as [[c p]|] eqn:E;
    [|apply nth_error_None in E; lia].
  rewrite (launch_events_snoc _ _ _ _ E), spawn_count_app, relay_count_app.
  destruct IH as [-> ->]; [lia|]. cbn. lia.
Qed.

Lemma no_launch_counts rest :
  Forall (fun ev => is_launch ev = false) rest ->
  spawn_count rest = 0 /\ relay_count rest = 0.
Proof.
  induction 1 as [|ev rest Hev _ [IHs IHr]]; [split; reflexivity|].
  unfold spawn_count, relay_count in *. cbn.
  destruct ev; cbn in *; try discriminate; auto.
Qed.

Lemma launch_only_quiet tr :
  Forall (fun ev => is_launch ev = true) tr ->
  probes tr = [] /\ forall j, signals_to j tr = 0.
Proof.
  induction 1 as [|ev tr Hev _ [IHp IHs]]; [split; reflexivity|].
  destruct ev; cbn in *; try discriminate; split; auto.
Qed.

(** A run that ended takes no further step. *)
Lemma finished_stuck calls s ins s' :
  finished s = true -> run calls s ins = Some s' -> s' = s.
Proof.
  intros Hf. destruct ins as [|a ins]; cbn.
  - congruence.
  - unfold step. rewrite Hf. discriminate.
Qed.

Lemma after_install_probed calls s :
  control_inv calls s -> trace_inv calls s -> installed s = true ->
  exists k, probed calls (trace s) k /\ k <= List.length calls
            /\ (loop_done (main s) = true -> shutting_down s = false ->
                k = List.length calls).
Proof.
  unfold control_inv, trace_inv, quiet. intros Hc Ht Hi.
  destruct (main s) as [ | | | | | | | | | | | [|[]]]; cbn [loop_done];
    repeat match goal with
      | H : _ /\ _ |- _ => destruct H
      | H : exists _, _ |- _ => destruct H
      end;
    try congruence;
    eexists; (split; [eassumption|]); split; try lia; try discriminate; auto.
Qed.

Lemma before_install_launching calls s :
  control_inv calls s -> trace_inv calls s -> installed s = false ->
  Forall (fun ev => is_launch ev = true) (trace s).
Proof.
  unfold control_inv, trace_inv, armed. intros Hc Ht Hi.
  destruct (main s) as [ | | | | | | | | | | | [|[]]];
    repeat match goal with
      | H : _ /\ _ |- _ => destruct H
      | H : exists _, _ |- _ => destruct H
      end;
    try congruence;
    try match goal with H : trace s = _ |- _ => rewrite H end;
    try apply Forall_app; try split; try apply launch_events_launch;
    repeat constructor; auto.
Qed.

(** C6. In every run on a plan of N calls: no probe is issued before the
    handler is installed; from then on the trace is the launch of the N
    calls (N processes and N relay threads, one pair per call), followed
    by events that start no process and no relay; the probes issued are
    those of the first k calls, one each, in plan order, at
    127.0.0.1:port with timeout 20; and k = N once the loop is over,
    unless the flag was set by a shutdown trigger. *)
Theorem launch_then_ordered_probes calls ins s :
  deploy calls ins = Some s ->
  (installed s = false -> probes (trace s) = [])
  /\ (installed s = true ->
      exists k rest,
        trace s = launch_events calls (List.length calls) ++ rest
        /\ Forall (fun ev => is_launch ev = false) rest
        /\ spawn_count (trace s) = List.length calls
        /\ relay_count (trace s) = List.length calls
        /\ probes (trace s) = map (probe_at calls) (seq 0 k)
        /\ k <= List.length calls
        /\ (loop_done (main s) = true -> shutting_down s = false ->
            k = List.length calls)).
Proof.
  intros H. apply invariants_run in H. destruct H as [Hc Ht]. split.
  - intros Hi. apply (before_install_launching _ _ Hc Ht) in Hi.
    apply launch_only_quiet in Hi. apply Hi.
  - intros Hi.
    destruct (after_install_probed _ _ Hc Ht Hi) as (k & (rest & E & Hl & Hp) & Hk & Hd).
    exists k, rest. rewrite E, spawn_count_app, relay_count_app, probes_app.
    destruct (launch_counts calls (List.length calls)) as [-> ->]; [lia|].
    destruct (no_launch_counts _ Hl) as [-> ->].
    destruct (launch_only_quiet _ (launch_events_launch calls (List.length calls)))
      as [-> _].
    repeat split; auto.
Qed.

Lemma launch_then_ordered_probes_witness :
  deploy plan3 ready3_inputs = Some ready3
  /\ installed ready3 = true /\ main ready3 = MWait
  /\ shutting_down ready3 = false
  /\ probes (trace ready3)
     = [(0, "127.0.0.1:10100"%string, 20%Z); (1, "127.0.0.1:10103"%string, 20%Z);
        (2, "127.0.0.1:10106"%string, 20%Z)]
  /\ exists k rest,
        trace ready3 = launch_events plan3 3 ++ rest
        /\ Forall (fun ev => is_launch ev = false) rest
        /\ spawn_count (trace ready3) = 3
        /\ relay_count (trace ready3) = 3
        /\ probes (trace ready3) = map (probe_at plan3) (seq 0 k)
        /\ k <= 3
        /\ (loop_done (main ready3) = true -> shutting_down ready3 = false ->
            k = 3).
Proof.
  assert (H : deploy plan3 ready3_inputs = Some ready3)
    by (vm_compute; reflexivity).
  split; [exact H|]. repeat (split; [reflexivity|]).
  exact (proj2 (launch_then_ordered_probes plan3 _ _ H) eq_refl).
Defined.

(** ** A process that cannot be started *)

Lemma spawn_error_step calls s i cp :
  control_inv calls s -> main s = MSpawn i -> nth_error calls i = Some cp ->
  step calls s SpawnError = Some (goto (MFinished (Raised (SpawnFailure i))) s).
Proof.
  unfold control_inv, quiet. intros Hc Hm Hcp. rewrite Hm in Hc.
  destruct Hc as (_ & (_ & _ & _ & Hh & _) & _).
  unfold step, finished, step_main. rewrite Hm, Hh, Hcp. reflexivity.
Qed.

(** C5, as the code has it. When [Popen] raises for the [i]-th call, the
    exception leaves [deploy] at once: the launch loop stops, the handler
    is never installed, no probe is issued, and nothing more happens; the
    [i] processes started before it are sent no termination request. *)
Theorem spawn_failure_aborts_without_cleanup calls ins s i :
  deploy calls ins = Some s ->
  (main s = MSpawn i -> nth_error calls i <> None ->
   exists s', step calls s SpawnError = Some s'
              /\ main s' = MFinished (Raised (SpawnFailure i)))
  /\ (main s = MFinished (Raised (SpawnFailure i)) ->
      i < List.length calls
      /\ trace s = launch_events calls i
      /\ spawn_count (trace s) = i
      /\ installed s = false
      /\ probes (trace s) = []
      /\ (forall j, signals_to j (trace s) = 0)
      /\ (forall ins' s', run calls s ins' = Some s' -> s' = s)).
Proof.
  intros H. apply invariants_run in H. destruct H as [Hc Ht]. split.
  - intros Hm Hcp. destruct (nth_error calls i) as [cp|] eqn:E; [|congruence].
    eexists. split; [eapply spawn_error_step; eauto | reflexivity].
  - intros Hm. unfold control_inv, trace_inv, quiet in *. rewrite Hm in *.
    destruct Hc as (Hi & (Hinst & _) & _).
    destruct (launch_only_quiet _ (launch_events_launch calls i)) as [Hp Hs].
    rewrite Ht. repeat split; auto.
    + apply launch_counts. lia.
    + intros ins' s' Hr. eapply finished_stuck; [|exact Hr].
      unfold finished. rewrite Hm. reflexivity.
Qed.

Lemma spawn_failure_aborts_without_cleanup_witness :
  deploy plan3 spawn_failure_inputs = Some spawn_failure_end
  /\ main spawn_failure_end = MFinished (Raised (SpawnFailure 1))
  /\ 1 < 3
  /\ trace spawn_failure_end = launch_events plan3 1
  /\ spawn_count (trace spawn_failure_end) = 1
  /\ installed spawn_failure_end = false
  /\ probes (trace spawn_failure_end) = []
  /\ (forall j, signals_to j (trace spawn_failure_end) = 0)
  /\ (forall ins' s',
        run plan3 spawn_failure_end ins' = Some s' -> s' = spawn_failure_end).
Proof.
  assert (H : deploy plan3 spawn_failure_inputs = Some spawn_failure_end)
    by (vm_compute; reflexivity).
  split; [exact H|]. split; [reflexivity|].
  exact (proj2 (spawn_failure_aborts_without_cleanup plan3 _ _ 1 H) eq_refl).
Defined.

(** C5 as the specification states it fails: the first of three processes
    is started, the second cannot be; [deploy] ends with the exception and
    the first process is never sent a termination request. *)
Lemma spawn_failure_no_termination_request :
  deploy plan3 spawn_failure_inputs = Some spawn_failure_end
  /\ main spawn_failure_end = MFinished (Raised (SpawnFailure 1))
  /\ In (ESpawn 0 ["python"; "-m"; "mtap"; "events"; "-p"; "10100"]%string)
       (trace spawn_failure_end)
  /\ ~ (forall j, j < 1 -> 0 < signals_to j (trace spawn_failure_end))
  /\ forall ins' s',
       run plan3 spawn_failure_end ins' = Some s' ->
       signals_to 0 (trace s') = 0.
Proof.
  split; [vm_compute; reflexivity|]. split; [reflexivity|].
  split; [left; reflexivity|]. split.
  - intros H. specialize (H 0 (Nat.lt_0_succ 0)). cbn in H. lia.
  - intros ins' s' Hr.
    rewrite (finished_stuck plan3 spawn_failure_end ins' s' eq_refl Hr).
    reflexivity.
Qed.

(** ** The shutdown path *)





Lemma printed_app tr1 tr2 : printed (tr1 ++ tr2) = printed tr1 ++ printed tr2.
Proof. unfold printed. apply flat_map_app. Qed.


(** A SIGINT that finds the handler installed, and the activation it
    starts, run to its end. *)
Lemma sigint_runs calls s joins :
  installed s = true -> finished s = false ->
  List.length joins = List.length (process_listeners s) ->
  cancel_raises (future s) = false ->
  run calls s (Sigint :: handler_inputs (List.length (processes s)) joins)
  = Some (after_handler (handlers s) s joins).
Proof.
  intros Hi Hf Hl Hc. cbn [run]. unfold step. rewrite Hf, Hi.
  change (processes s) with (processes (hcall s)).
  rewrite (handler_runs calls (hcall s) (handlers s) joins).
  - reflexivity.
  - revert Hf. unfold finished, running. cbn.
    destruct (main s); intros; try exact I; discriminate.
  - reflexivity.
  - exact Hl.
  - exact Hc.
Qed.


(** A future is never both cancelled and matured. *)
Lemma cancelled_not_matured calls ins s :
  deploy calls ins = Some s ->
  future_cancelled s = true -> future_matured s = false.
Proof.
  intros H.
  refine (run_invariant calls
            (fun s => future_cancelled s = true -> future_matured s = false)
            _ ins init s _ H); [|reflexivity].
  intros s0 a s1 Hinv Hstep.
  step_cases Hstep; unfold_updates;
    unfold future_cancelled, future_matured, mature in *; unfold_updates;
    try match goal with
      | E : future _ = Some _ |- _ => rewrite E in *
      end;
    try match goal with
      | |- context [future ?s] => destruct (future s) as [[c cd md]|]
      end;
    repeat match goal with
      | f : future_t |- _ => destruct f as [c cd md]
      | E : _ || _ = false |- _ => apply orb_false_elim in E; destruct E
      end;
    cbn [cancelled matured] in *; try assumption; try congruence;
    auto.
Qed.




Lemma armed_of_installed calls s :
  control_inv calls s -> installed s = true ->
  children (List.length calls) s.
Proof.
  unfold control_inv, quiet, armed. intros Hc Hi.
  destruct (main s) as [ | | | | | | | | | | | [|[]]];
    repeat match goal with H : _ /\ _ |- _ => destruct H end;
    try congruence; assumption.
Qed.

Lemma children_lengths n s :
  children n s ->
  processes s = seq 0 n /\ process_listeners s = seq 0 n
  /\ List.length (processes s) = n /\ List.length (process_listeners s) = n.
Proof.
  intros [Hp Hl]. rewrite Hp, Hl, length_seq. auto.
Qed.

Lemma installed_of_handlers calls s h hs :
  control_inv calls s -> handlers s = h :: hs -> installed s = true.
Proof.
  unfold control_inv, quiet, armed. intros Hc Hh.
  destruct (main s) as [ | | | | | | | | | | | [|[]]];
    repeat match goal with H : _ /\ _ |- _ => destruct H end;
    try congruence.
Qed.







(** ** A probe that times out *)

Lemma abandoned_step calls s a s' :
  control_inv calls s -> abandoned s -> step calls s a = Some s' ->
  abandoned s' /\ probes (trace s') = probes (trace s).
Proof.
  intros Hc Hab Hstep. unfold abandoned in *.
  assert (Hi : installed s = true).
  { unfold control_inv, armed in Hc.
    destruct (main s) as [ | | | | | | | | | | | [|[]]]; try contradiction;
      repeat match goal with H : _ /\ _ |- _ => destruct H end; assumption. }
  clear Hc.
  step_cases Hstep; unfold_updates.
  all: try match goal with E : main _ = _ |- _ => rewrite E in * end.
  all: try (destruct (main s) as [ | | | | | | | | | | | [|[]]] eqn:Hm;
            unfold finished in *; try rewrite Hm in *; try discriminate).
  all: try contradiction.
  all: try congruence.
  all: rewrite ?probes_app; cbn [probes flat_map app]; rewrite ?app_nil_r.
  all: repeat match goal with
         | H : handlers ?s = _ |- _ => rewrite H in *; clear H
         end.
  all: cbn [tl].
  all: split; [|reflexivity]; try exact I.
  all: first
    [ assumption
    | left; reflexivity
    | left; assumption
    | right; split; [discriminate | repeat constructor; fail]
    | destruct Hab as [Hab|[Hne Hall]];
      [ first [left; assumption | discriminate Hab]
      | first [ exfalso; apply Hne; reflexivity
              | inversion Hall; congruence
              | right; split;
                [discriminate | constructor; [reflexivity | assumption]] ] ] ].
Qed.


Lemma abandoned_run calls ins s s' :
  control_inv calls s -> abandoned s -> run calls s ins = Some s' ->
  abandoned s' /\ probes (trace s') = probes (trace s).
Proof.
  revert s. induction ins as [|a ins IH]; intros s Hc Hab Hr; cbn in Hr.
  - injection Hr as <-. auto.
  - destruct (step calls s a) as [s1|] eqn:E; [|discriminate].
    destruct (abandoned_step _ _ _ _ Hc Hab E) as [Hab1 Hp1].
    destruct (IH s1 (control_inv_step _ _ _ _ Hc E) Hab1 Hr) as [Hab' Hp'].
    split; [exact Hab' | congruence].
Qed.

Lemma timed_out_app tr1 tr2 :
  timed_out (tr1 ++ tr2) = timed_out tr1 || timed_out tr2.
Proof. apply existsb_app. Qed.

(** The only statement that records a timeout leads to line 149. *)
Lemma timed_out_step calls s a s' :
  step calls s a = Some s' -> timed_out (trace s') = true ->
  timed_out (trace s) = true \/ exists i, main s' = MFailed i.
Proof.
  intros Hstep. step_cases Hstep; unfold_updates;
    rewrite ?timed_out_app; cbn; rewrite ?orb_false_r; eauto.
Qed.

Lemma timed_out_abandoned calls ins s :
  deploy calls ins = Some s -> timed_out (trace s) = true -> abandoned s.
Proof.
  intros H.
  assert (Hinv : control_inv calls s
                 /\ (timed_out (trace s) = true -> abandoned s));
    [|apply Hinv].
  eapply run_invariant
    with (P := fun s => control_inv calls s
                        /\ (timed_out (trace s) = true -> abandoned s));
    [|split; [apply control_inv_init | discriminate]|exact H].
  intros s0 a s1 [Hc Ht] Hs. split; [eapply control_inv_step; eauto|].
  intros Ht1. destruct (timed_out_step _ _ _ _ Hs Ht1) as [Ht0|[i Hm]].
  - eapply abandoned_step; eauto.
  - unfold abandoned. rewrite Hm. exact I.
Qed.

Lemma timeout_step calls s i :
  main s = MResult i -> handlers s = [] ->
  future_cancelled s = false -> future_matured s = false ->
  step calls s (Resolved Timeout)
  = Some (goto (MFailed i) (emit (EResult i Timeout) s)).
Proof.
  intros Hm Hh Hf Hmt. unfold step, finished, step_main.
  rewrite Hm, Hh, Hf, Hmt. reflexivity.
Qed.

(** C3. A probe that times out (no activation of the handler being in
    progress): [deploy] prints 'Failed to launch' with the command of
    that call, then calls the handler, which sends a termination request
    to every spawned process, those already found ready included; and
    whatever happens after the timeout, SIGINTs included, no further
    probe is issued. *)
Theorem timeout_triggers_shutdown calls ins s i joins :
  deploy calls ins = Some s ->
  main s = MResult i ->
  handlers s = [] ->
  future_cancelled s = false ->
  List.length joins = List.length calls ->
  exists c port s',
    nth_error calls i = Some (c, port)
    /\ run calls s
         (Resolved Timeout :: Go :: Go
            :: handler_inputs (List.length calls) joins) = Some s'
    /\ trace s'
       = trace s
           ++ [EResult i Timeout; EPrint (FailedToLaunch c);
               EPrint ShuttingDown]
           ++ map ESignal (seq 0 (List.length calls))
           ++ [ECancel i]
           ++ map (fun lb => EJoin (fst lb) 5 (snd lb))
                (combine (seq 0 (List.length calls)) joins)
           ++ [ESet]
    /\ shutting_down s' = true /\ e s' = true
    /\ main s' = MCheck (S i) /\ handlers s' = []
    /\ forall ins' s'',
         run calls s (Resolved Timeout :: ins') = Some s'' ->
         probes (trace s'') = probes (trace s).
Proof.
  intros H Hm Hh Hf Hl. apply control_inv_run in H.
  pose proof H as Hc. unfold control_inv in Hc. rewrite Hm in Hc.
  destruct Hc as (Hi & (Hinst & Hch & _) & (b & Hfut)).
  destruct (children_lengths _ _ Hch) as (Hp & Hls & Hpn & Hln).
  assert (b = false) as -> by (unfold future_cancelled in Hf;
                               rewrite Hfut in Hf; exact Hf).
  destruct (nth_error calls i) as [[c port]|] eqn:E;
    [|apply nth_error_None in E; lia].
  assert (Hmt : future_matured s = false)
    by (unfold future_matured; rewrite Hfut; reflexivity).
  pose proof (timeout_step calls s i Hm Hh Hf Hmt) as S1.
  exists c, port.
  set (s3 := hcall (goto (MCheck (S i))
                      (goto (MCallHandler i)
                         (emit (EPrint (FailedToLaunch c))
                            (goto (MFailed i) (emit (EResult i Timeout) s)))))).
  assert (R3 : run calls s [Resolved Timeout; Go; Go] = Some s3).
  { cbn [run]. rewrite S1. unfold step, finished, step_main. cbn.
    rewrite Hh, E. cbn. rewrite Hh. reflexivity. }
  exists (after_handler [] s3 joins).
  split; [reflexivity|].
  split; [|split; [|do 4 (split; [reflexivity|])]].
  - change (Resolved Timeout :: Go :: Go
              :: handler_inputs (List.length calls) joins)
      with ([Resolved Timeout; Go; Go]
              ++ handler_inputs (List.length calls) joins).
    rewrite run_app, R3.
    replace (List.length calls) with (List.length (processes s3))
      by exact Hpn.
    apply handler_runs;
      [exact I | subst s3; cbn; rewrite Hh; reflexivity| |].
    + subst s3. cbn. congruence.
    + subst s3. cbn. rewrite Hfut. reflexivity.
  - subst s3. cbn. unfold handler_events, join_events. cbn.
    rewrite Hp, Hls, Hfut. cbn. rewrite <- !app_assoc. reflexivity.
  - intros ins' s'' Hr. cbn [run] in Hr. rewrite S1 in Hr.
    destruct (abandoned_run calls ins'
                (goto (MFailed i) (emit (EResult i Timeout) s)) s'')
      as [_ Hpr]; try exact Hr.
    + eapply control_inv_step; eauto.
    + exact I.
    + rewrite Hpr. cbn. rewrite probes_app. cbn. apply app_nil_r.
Qed.

Lemma timeout_triggers_shutdown_witness :
  deploy plan3 second_in_flight_inputs = Some second_in_flight
  /\ main second_in_flight = MResult 1
  /\ exists c port s',
    nth_error plan3 1 = Some (c, port)
    /\ run plan3 second_in_flight
         (Resolved Timeout :: Go :: Go :: handler_inputs 3 [true; true; false])
       = Some s'
    /\ trace s'
       = trace second_in_flight
           ++ [EResult 1 Timeout; EPrint (FailedToLaunch c);
               EPrint ShuttingDown]
           ++ [ESignal 0; ESignal 1; ESignal 2]
           ++ [ECancel 1]
           ++ [EJoin 0 5 true; EJoin 1 5 true; EJoin 2 5 false]
           ++ [ESet]
    /\ shutting_down s' = true /\ e s' = true
    /\ main s' = MCheck 2 /\ handlers s' = []
    /\ forall ins' s'',
         run plan3 second_in_flight (Resolved Timeout :: ins') = Some s'' ->
         probes (trace s'') = probes (trace second_in_flight).
Proof.
  assert (H : deploy plan3 second_in_flight_inputs = Some second_in_flight)
    by (vm_compute; reflexivity).
  split; [exact H|]. split; [reflexivity|].
  exact (timeout_triggers_shutdown plan3 _ second_in_flight 1
           [true; true; false] H eq_refl eq_refl eq_refl eq_refl).
Defined.

(** ** How [deploy] ends *)

Lemma ready_count_app tr1 tr2 :
  ready_count (tr1 ++ tr2) = ready_count tr1 + ready_count tr2.
Proof. unfold ready_count. rewrite filter_app, length_app. reflexivity. Qed.

Lemma ready_inv_step calls s a s' :
  control_inv calls s -> ready_inv calls s ->
  step calls s a = Some s' -> ready_inv calls s'.
Proof.
  intros Hc [Hpc Hfut] Hstep. unfold ready_inv.
  step_cases Hstep; unfold_updates.
  all: try match goal with E : main _ = _ |- _ => rewrite E in * end.
  all: unfold mature in *; unfold_updates.
  all: rewrite ?ready_count_app; cbn [ready_count filter List.length];
    rewrite ?Nat.add_0_r.
  all: (split; [try exact I; try assumption; try lia|]).
  all: intros f0 Hf0 Hm0.
  all: try exact (Hfut _ Hf0 Hm0).
  all: try discriminate Hf0.
  all: try match reverse goal with
         | E : future _ = _ |- _ => rewrite E in Hf0
         end.
  all: try discriminate Hf0.
  all: try (injection Hf0 as <-); cbn [chan cancelled matured] in *.
  all: try discriminate Hm0.
  all: try exact (Hfut _ eq_refl ltac:(assumption)).
  all: try (split; [assumption | eapply nth_error_some_lt; eassumption]).
  destruct (future s) as [f1|]; [|discriminate Hf0].
  injection Hf0 as <-. discriminate Hm0.
Qed.

Lemma ready_inv_run calls ins s :
  deploy calls ins = Some s -> ready_inv calls s.
Proof.
  intros H.
  assert (Hinv : control_inv calls s /\ ready_inv calls s); [|apply Hinv].
  refine (run_invariant calls
            (fun s => control_inv calls s /\ ready_inv calls s)
            _ ins init s _ H).
  - intros s0 a s1 [Hc Hr] Hs. split;
      [eapply control_inv_step | eapply ready_inv_step]; eauto.
  - split; [apply control_inv_init|].
    split; [reflexivity | intros f Hf; discriminate Hf].
Qed.

(** FutureCancelledError and TypeError leave [deploy] only with the
    future cancelled. *)
Lemma raised_after_cancel calls ins s :
  deploy calls ins = Some s ->
  main s = MFinished (Raised FutureCancelledError)
  \/ main s = MFinished (Raised TypeError) ->
  exists f, future s = Some f /\ cancelled f = true /\ matured f = false.
Proof.
  intros H Hm.
  assert (Hc : future_cancelled s = true).
  { revert Hm.
    refine (run_invariant calls
              (fun s => main s = MFinished (Raised FutureCancelledError)
                        \/ main s = MFinished (Raised TypeError) ->
                        future_cancelled s = true)
              _ ins init s _ H);
      [|intros [Hm|Hm]; discriminate Hm].
    intros s0 a s1 _ Hstep.
    step_cases Hstep; unfold_updates; unfold future_cancelled in *;
      unfold_updates; unfold finished in *; intros [Hm|Hm];
      try discriminate Hm; try assumption;
      try (rewrite Hm in *; discriminate);
      try match goal with E : future _ = Some _ |- _ => rewrite E end;
      assumption. }
  pose proof (cancelled_not_matured _ _ _ H Hc) as Hn.
  unfold future_cancelled, future_matured in *.
  destruct (future s) as [f|]; [|discriminate Hc]. eauto.
Qed.

Lemma lone_step calls s a s' :
  control_inv calls s -> lone s -> a <> Sigint ->
  step calls s a = Some s' -> lone s'.
Proof.
  intros Hc (Hlen & Hbef & Hpc) Ha Hstep. unfold lone.
  assert (Hcall : forall i, main s = MCallHandler i ->
                            shutting_down s = false ->
                            future_cancelled s = false).
  { intros i Hm Hs. unfold control_inv, armed in Hc. rewrite Hm in Hc.
    destruct Hc as (_ & _ & _ & _ & _ & Hf).
    destruct (future_cancelled s); [|reflexivity].
    rewrite Hf in Hs by reflexivity. discriminate Hs. }
  clear Hc.
  step_cases Hstep; unfold_updates; try congruence.
  all: try match goal with E : main _ = _ |- _ => rewrite E in * end.
  all: try (specialize (Hcall _ eq_refl)).
  all: unfold future_cancelled, mature in *; unfold_updates.
  all: repeat match goal with
         | E : handlers _ = _ |- _ => rewrite E in *; clear E
         | E : future _ = _ |- _ => rewrite E in *; clear E
         | H : _ /\ _ |- _ => destruct H
         | E : _ || _ = false |- _ => apply orb_false_elim in E
         end.
  all: cbn [List.length tl chan cancelled matured] in *.
  all: try match goal with
         | H : S (List.length ?l) <= 1 |- _ =>
             destruct l; [|cbn in H; lia]
         end.
  all: try match goal with
         | H : forall h, [?h0] = [h] -> _ |- _ =>
             specialize (H h0 eq_refl); cbn [before_join] in H;
             try specialize (H eq_refl)
         end.
  all: (split; [cbn; lia|split]).
  all: try exact I.
  all: try (intros h' Hh' Hb'; try discriminate Hh';
            try (injection Hh' as <-); cbn [before_join] in *;
            try discriminate Hb'; cbn [cancelled]; auto; congruence).
  all: try (split; [assumption|reflexivity]).
  all: try (split; assumption).
  all: try congruence.
  all: unfold finished in *;
    destruct (main s) as [ | | | | | | | | | | | [|[]]];
    try exact I; try discriminate; try contradiction;
    destruct Hpc as [? Hx]; discriminate Hx.
Qed.

Lemma lone_run calls ins :
  forall s s',
    control_inv calls s -> lone s -> ~ In Sigint ins ->
    run calls s ins = Some s' -> lone s'.
Proof.
  induction ins as [|a ins IH]; intros s s' Hc Hl Hn Hr; cbn in Hr.
  - injection Hr as <-. exact Hl.
  - destruct (step calls s a) as [s1|] eqn:E; [|discriminate].
    apply (IH s1 s'); [eapply control_inv_step; eauto| | |exact Hr].
    + apply (lone_step calls s a); auto.
      intros ->. apply Hn. left. reflexivity.
    + intros Hin. apply Hn. right. exact Hin.
Qed.

(** C1, as the code has it. [deploy] computes no status. A run that
    comes to its end after a probe timed out returns normally, which
    leaves the exit status at 0, just as a run does that comes to its
    end after every service was found ready; the only other end of a run
    with a timeout is the TypeError of line 135, with status 1, and it
    takes a SIGINT besides the timeout. *)
Theorem readiness_failure_returns_normally calls ins s o :
  deploy calls ins = Some s ->
  main s = MFinished o ->
  (timed_out (trace s) = true ->
   (o = Returned /\ exit_status o = 0%Z)
   \/ (o = Raised TypeError /\ exit_status o = 1%Z /\ In Sigint ins))
  /\ (installed s = true ->
      ready_count (trace s) = List.length calls ->
      o = Returned /\ exit_status o = 0%Z).
Proof.
  intros H Hm. split.
  - intros Ht. pose proof (timed_out_abandoned _ _ _ H Ht) as Hab.
    unfold abandoned in Hab. rewrite Hm in Hab.
    destruct o as [|[j| | |]]; try contradiction.
    + left. split; reflexivity.
    + right. split; [reflexivity|]. split; [reflexivity|].
      destruct (in_dec (fun a b : input =>
                          ltac:(decide equality; decide equality))
                  Sigint ins) as [Hin|Hn]; [exact Hin|].
      exfalso.
      assert (Hl : lone s).
      { apply (lone_run calls ins init s); [apply control_inv_init| |exact Hn|exact H].
        split; [cbn; lia|].
        split; [intros h Hh; discriminate Hh|exact I]. }
      destruct Hl as (_ & _ & Hpc). rewrite Hm in Hpc. exact Hpc.
  - intros Hi Hr. pose proof (control_inv_run _ _ _ H) as Hinv.
    unfold control_inv, quiet in Hinv. rewrite Hm in Hinv.
    destruct (ready_inv_run _ _ _ H) as [_ Hfut].
    assert (Hx : forall x, o = Raised x ->
                 x = FutureCancelledError \/ x = TypeError -> False).
    { intros x -> Hxx.
      destruct (raised_after_cancel calls ins s H) as (f & Hf & _ & Hmt).
      - rewrite Hm. destruct Hxx as [->| ->]; auto.
      - destruct (Hfut f Hf Hmt). lia. }
    destruct o as [|[j| | |]]; [split; reflexivity| | | |].
    + destruct Hinv as (_ & (Hf & _) & _). congruence.
    + exfalso. eapply Hx; eauto.
    + exfalso. eapply Hx; eauto.
    + destruct Hinv as (Hf & _). congruence.
Qed.

Lemma readiness_failure_returns_normally_witness :
  (deploy plan3 timeout_end_inputs = Some timeout_end
   /\ main timeout_end = MFinished Returned
   /\ timed_out (trace timeout_end) = true
   /\ ((Returned = Returned /\ exit_status Returned = 0%Z)
       \/ (Returned = Raised TypeError /\ exit_status Returned = 1%Z
           /\ In Sigint timeout_end_inputs)))
  /\ (deploy plan3 double_trigger_inputs = Some double_trigger
      /\ main double_trigger = MFinished (Raised TypeError)
      /\ timed_out (trace double_trigger) = true
      /\ ((Raised TypeError = Returned
           /\ exit_status (Raised TypeError) = 0%Z)
          \/ (Raised TypeError = Raised TypeError
              /\ exit_status (Raised TypeError) = 1%Z
              /\ In Sigint double_trigger_inputs)))
  /\ (deploy plan3 clean_end_inputs = Some clean_end
      /\ main clean_end = MFinished Returned
      /\ installed clean_end = true
      /\ ready_count (trace clean_end) = 3
      /\ Returned = Returned /\ exit_status Returned = 0%Z).
Proof.
  assert (H1 : deploy plan3 timeout_end_inputs = Some timeout_end)
    by (vm_compute; reflexivity).
  assert (H2 : deploy plan3 double_trigger_inputs = Some double_trigger)
    by (vm_compute; reflexivity).
  assert (H3 : deploy plan3 clean_end_inputs = Some clean_end)
    by (vm_compute; reflexivity).
  split; [|split].
  - split; [exact H1|]. do 2 (split; [reflexivity|]).
    exact (proj1 (readiness_failure_returns_normally plan3 _ _ _
                    H1 eq_refl) eq_refl).
  - split; [exact H2|]. do 2 (split; [reflexivity|]).
    exact (proj1 (readiness_failure_returns_normally plan3 _ _ _
                    H2 eq_refl) eq_refl).
  - split; [exact H3|]. do 3 (split; [reflexivity|]).
    exact (proj2 (readiness_failure_returns_normally plan3 _ _ _
                    H3 eq_refl) eq_refl eq_refl).
Defined.



(** C1 as the specification states it fails: the second of three
    services never becomes ready; every child is sent a termination
    request, the third is never probed, and [deploy] returns normally:
    the exit status is 0. *)
Lemma readiness_failure_exit_status_zero :
  deploy plan3 timeout_end_inputs = Some timeout_end
  /\ In (EResult 1 Timeout) (trace timeout_end)
  /\ map (fun p => fst (fst p)) (probes (trace timeout_end)) = [0; 1]
  /\ signals_to 0 (trace timeout_end) = 1
  /\ signals_to 1 (trace timeout_end) = 1
  /\ signals_to 2 (trace timeout_end) = 1
  /\ main timeout_end = MFinished Returned
  /\ ~ (exit_status Returned <> 0%Z).
Proof.
  split; [vm_compute; reflexivity|].
  split; [cbn; intuition|].
  do 5 (split; [reflexivity|]).
  intros H. apply H. reflexivity.
Qed.

(** ** A probe that is cancelled *)

(** C4, what the code does. A SIGINT that arrives while the probe of
    call [i] is in flight runs the handler, which cancels that probe's
    future (after the termination requests); from then on the probe
    cannot end with a timeout. When it ends cancelled, nothing is printed,
    the handler is not called again and no further probe is issued, as
    the claim has it; but line 148 catches the timeout only, so the
    cancellation leaves [deploy] as an exception, there and then: the run
    fails where the claim says that the cancellation is no failure. The
    same holds of a probe whose future an earlier SIGINT has cancelled
    already: it can only end cancelled, and that ends [deploy]. *)
Theorem cancelled_probe_leaves_deploy calls ins s i joins :
  deploy calls ins = Some s ->
  main s = MResult i ->
  handlers s = [] ->
  List.length joins = List.length calls ->
  (future_cancelled s = false ->
   exists s1 s2,
     run calls s (Sigint :: handler_inputs (List.length calls) joins) = Some s1
     /\ trace s1
        = trace s
            ++ [EPrint ShuttingDown]
            ++ map ESignal (seq 0 (List.length calls))
            ++ [ECancel i]
            ++ map (fun lb => EJoin (fst lb) 5 (snd lb))
                 (combine (seq 0 (List.length calls)) joins)
            ++ [ESet]
     /\ future_cancelled s1 = true
     /\ step calls s1 (Resolved Timeout) = None
     /\ step calls s1 (Resolved Cancelled) = Some s2
     /\ trace s2 = trace s1 ++ [EResult i Cancelled]
     /\ main s2 = MFinished (Raised FutureCancelledError)
     /\ exit_status (Raised FutureCancelledError) = 1%Z
     /\ forall ins' s', run calls s2 ins' = Some s' -> s' = s2)
  /\ (future_cancelled s = true ->
      exists s2,
        step calls s (Resolved Timeout) = None
        /\ step calls s (Resolved Ready) = None
        /\ step calls s (Resolved Cancelled) = Some s2
        /\ trace s2 = trace s ++ [EResult i Cancelled]
        /\ main s2 = MFinished (Raised FutureCancelledError)
        /\ exit_status (Raised FutureCancelledError) = 1%Z
        /\ forall ins' s', run calls s2 ins' = Some s' -> s' = s2).
Proof.
  intros H Hm Hh Hl. apply control_inv_run in H.
  pose proof H as Hc. unfold control_inv in Hc. rewrite Hm in Hc.
  destruct Hc as (Hi & (Hinst & Hch & _) & (b & Hfut)).
  destruct (children_lengths _ _ Hch) as (Hp & Hls & Hpn & Hln).
  split; intros Hf;
    (assert (Hb : b = cancelled {| chan := i; cancelled := b;
                                   matured := false |}) by reflexivity;
     unfold future_cancelled in Hf; rewrite Hfut in Hf;
     rewrite Hf in Hb; subst b).
  - exists (after_handler [] s joins).
    exists (goto (MFinished (Raised FutureCancelledError))
              (emit (EResult i Cancelled) (after_handler [] s joins))).
    split; [|split; [|split; [|split; [|split;
      [|do 3 (split; [reflexivity|])]]]]].
    + rewrite <- Hpn at 1. rewrite <- Hh.
      apply sigint_runs; [exact Hinst| |congruence|].
      * unfold finished. rewrite Hm. reflexivity.
      * rewrite Hfut. reflexivity.
    + cbn. unfold handler_events, join_events. rewrite Hp, Hls, Hfut.
      reflexivity.
    + unfold future_cancelled. cbn. rewrite Hfut. reflexivity.
    + unfold step, finished, step_main, future_cancelled. cbn.
      rewrite Hm, Hfut. reflexivity.
    + unfold step, finished, step_main, future_cancelled. cbn.
      rewrite Hm, Hfut. reflexivity.
    + intros ins' s' Hr. eapply finished_stuck; [|exact Hr]. reflexivity.
  - exists (goto (MFinished (Raised FutureCancelledError))
              (emit (EResult i Cancelled) s)).
    repeat split;
      try (unfold step, finished, step_main, future_cancelled;
           rewrite Hm, Hh, Hfut; reflexivity).
    intros ins' s' Hr. eapply finished_stuck; [|exact Hr]. reflexivity.
Qed.

Lemma cancelled_probe_leaves_deploy_witness :
  deploy plan1 in_flight_inputs = Some in_flight
  /\ main in_flight = MResult 0
  /\ exists s1 s2,
    run plan1 in_flight (Sigint :: handler_inputs 1 [true]) = Some s1
    /\ trace s1
       = trace in_flight
           ++ [EPrint ShuttingDown] ++ [ESignal 0] ++ [ECancel 0]
           ++ [EJoin 0 5 true] ++ [ESet]
    /\ future_cancelled s1 = true
    /\ step plan1 s1 (Resolved Timeout) = None
    /\ step plan1 s1 (Resolved Cancelled) = Some s2
    /\ trace s2 = trace s1 ++ [EResult 0 Cancelled]
    /\ main s2 = MFinished (Raised FutureCancelledError)
    /\ exit_status (Raised FutureCancelledError) = 1%Z
    /\ forall ins' s', run plan1 s2 ins' = Some s' -> s' = s2.
Proof.
  assert (H : deploy plan1 in_flight_inputs = Some in_flight)
    by (vm_compute; reflexivity).
  split; [exact H|]. split; [reflexivity|].
  exact (proj1 (cancelled_probe_leaves_deploy plan1 _ in_flight 0 [true]
                  H eq_refl eq_refl eq_refl) eq_refl).
Defined.

(** C4 at a concrete run: the probe of the only child is cancelled by a
    SIGINT, and [deploy] ends with FutureCancelledError; lines 152-154
    never run. *)
Lemma cancelled_probe_is_a_failure :
  deploy plan1 cancelled_end_inputs = Some cancelled_end
  /\ trace cancelled_end
     = [ESpawn 0 ["java"; "-p"; "10103"]%string; ERelay 0;
        EProbe 0 "127.0.0.1:10103"%string 20; EPrint ShuttingDown;
        ESignal 0; ECancel 0; EJoin 0 5 true; ESet; EResult 0 Cancelled]
  /\ main cancelled_end = MFinished (Raised FutureCancelledError)
  /\ ~ spec_not_a_failure cancelled_end.
Proof.
  split; [vm_compute; reflexivity|]. do 2 (split; [reflexivity|]).
  intros H. exact (H FutureCancelledError eq_refl).
Qed.

(** ** The end of [deploy] *)












(** ** A relay thread that does not end in time *)

Lemma step_forget_joins calls s a :
  step calls (forget_joins s) (all_joined a)
  = option_map forget_joins (step calls s a).
Proof.
  destruct s as [ps ls inst ev sd f m hs tr].
  unfold step, connect, in_result, finished, step_main, step_handler,
    forget_joins, future_cancelled, future_matured.
  cbn [main handlers installed processes process_listeners e shutting_down
       future trace].
  destruct m as [ | | | | | | | | | | | o]; destruct a as [| | | |[]|b|];
    cbn [all_joined option_map]; try reflexivity;
    destruct inst; cbn [option_map]; try reflexivity;
    try (destruct hs as [|[] hs]; cbn [option_map]; try reflexivity);
    repeat match goal with
      | |- context [match ?x with _ => _ end] =>
          destruct x; cbn [option_map]
      end;
    unfold_updates; cbn [option_map]; rewrite ?map_app; reflexivity.
Qed.

Lemma run_forget_joins calls ins s :
  run calls (forget_joins s) (map all_joined ins)
  = option_map forget_joins (run calls s ins).
Proof.
  revert s. induction ins as [|a ins IH]; intros s; [reflexivity|].
  cbn [map run]. rewrite step_forget_joins.
  destruct (step calls s a) as [s1|]; [apply IH | reflexivity].
Qed.

Lemma printed_forget tr : printed (map forget_join tr) = printed tr.
Proof.
  induction tr as [|ev tr IH]; [reflexivity|].
  cbn [map]. change (ev :: tr) with ([ev] ++ tr).
  change (forget_join ev :: map forget_join tr)
    with ([forget_join ev] ++ map forget_join tr).
  rewrite !printed_app, IH. destruct ev; reflexivity.
Qed.

(** C8, as the code has it. [listener.join(timeout=5)] returns nothing
    and the handler tests nothing after it: a run in which relay threads
    do not end within the timeout does, prints and returns exactly what
    the same run does when they all end in time; only the joins' own
    outcomes differ. A relay that is abandoned is not logged, and it
    changes neither the outcome of [deploy] nor the exit status. *)
Theorem join_timeout_changes_nothing calls ins s :
  deploy calls ins = Some s ->
  exists s',
    deploy calls (map all_joined ins) = Some s'
    /\ s' = forget_joins s
    /\ printed (trace s') = printed (trace s)
    /\ main s' = main s
    /\ forall o, main s = MFinished o ->
                 main s' = MFinished o
                 /\ (o = Returned -> exit_status o = 0%Z).
Proof.
  intros H. exists (forget_joins s). split; [|split; [|split; [|split]]].
  - unfold deploy in *. change init with (forget_joins init).
    rewrite run_forget_joins, H. reflexivity.
  - reflexivity.
  - apply printed_forget.
  - reflexivity.
  - intros o Ho. split; [exact Ho|]. intros ->. reflexivity.
Qed.

Lemma join_timeout_changes_nothing_witness :
  deploy plan1 slow_relay_inputs = Some slow_relay
  /\ In (EJoin 0 5 false) (trace slow_relay)
  /\ exists s',
       deploy plan1 (map all_joined slow_relay_inputs) = Some s'
       /\ s' = forget_joins slow_relay
       /\ printed (trace s') = printed (trace slow_relay)
       /\ main s' = main slow_relay
       /\ forall o, main slow_relay = MFinished o ->
                    main s' = MFinished o
                    /\ (o = Returned -> exit_status o = 0%Z).
Proof.
  assert (H : deploy plan1 slow_relay_inputs = Some slow_relay)
    by (vm_compute; reflexivity).
  split; [exact H|]. split; [cbn; intuition|].
  exact (join_timeout_changes_nothing plan1 _ _ H).
Defined.

(** C8 as the specification states it fails: the relay thread of the only
    child does not end within the 5 units of its [join]; the run prints
    the three status lines and nothing else, exactly what it prints when
    the thread ends in time. *)
Lemma join_timeout_not_logged :
  deploy plan1 slow_relay_inputs = Some slow_relay
  /\ deploy plan1 (map all_joined slow_relay_inputs) = Some quick_relay
  /\ In (EJoin 0 5 false) (trace slow_relay)
  /\ ~ In (EJoin 0 5 false) (trace quick_relay)
  /\ printed (trace slow_relay)
     = [DoneStarting; ShuttingDown; DoneShuttingDown]
  /\ ~ (printed (trace slow_relay) <> printed (trace quick_relay))
  /\ main slow_relay = MFinished Returned.
Proof.
  split; [vm_compute; reflexivity|]. split; [vm_compute; reflexivity|].
  split; [cbn; intuition|].
  split; [cbn; intuition discriminate|].
  split; [reflexivity|]. split; [|reflexivity].
  intros H. apply H. reflexivity.
Qed.

(** ** Proofs: the launch plan *)

Lemma no_rtf_builds py jar c :
  include_rtf c = false ->
  exists pl, build_calls py jar c = inr pl
             /\ map snd pl = service_ports c.
Proof.
  intros H. unfold build_calls, with_events, with_rtf, service_ports.
  rewrite H. destruct (events_address c); eexists; split; reflexivity.
Qed.

(** The loop of lines 110-115 on any list: each tuple keeps its base
    command and port, in place. *)
Lemma extend_calls_nth ea register es :
  forall i pl k c p,
    extend_calls i ea register es = inr pl ->
    nth_error pl k = Some (c, p) ->
    exists base,
      nth_error es k = Some (Pair base p)
      /\ c = base ++ ["-p"; p]
               ++ (if (0 <? i + k)%nat then ["--events"; ea] else [])
               ++ (if register then ["--register"] else []).
Proof.
  induction es as [|x es IH]; intros i pl k c p Hb Hn; cbn in Hb.
  - injection Hb as <-. destruct k; discriminate.
  - destruct (extend_entry i ea register x) as [err|cp] eqn:Ex; [discriminate|].
    destruct (extend_calls (S i) ea register es) as [err|pl'] eqn:Er;
      [discriminate|].
    injection Hb as <-. destruct k as [|k]; cbn in Hn.
    + injection Hn as ->. destruct x as [base port|l]; cbn in Ex.
      * injection Ex as <- <-. exists base. rewrite Nat.add_0_r.
        split; reflexivity.
      * destruct l as [|? [|? [|? ?]]]; discriminate.
    + destruct (IH (S i) pl' k c p Er Hn) as (base & Hb & Hc).
      exists base. split; [exact Hb|].
      replace (i + S k) with (S i + k) by lia. exact Hc.
Qed.

Lemma build_without_rtf py jar c pl :
  build_calls py jar c = inr pl -> include_rtf c = false.
Proof.
  unfold build_calls, with_events, with_rtf.
  destruct (include_rtf c); [|reflexivity].
  destruct (events_address c); discriminate.
Qed.

(** X1. every command of the plan ends with [-p] and the very port the
    supervisor will probe for it, then [--events] and the events address
    for every command but the first, then [--register] when discovery is
    asked for. *)
Theorem calls_carry_their_port py jar c pl i cmd p :
  build_calls py jar c = inr pl ->
  nth_error pl i = Some (cmd, p) ->
  exists base,
    cmd = base ++ ["-p"; p]
            ++ (if (0 <? i)%nat then ["--events"; events_address_of c] else [])
            ++ (if discovery c then ["--register"] else [])
    /\ nth_error (service_ports c) i = Some p.
Proof.
  intros Hb Hn. pose proof (build_without_rtf _ _ _ _ Hb) as Hr.
  destruct (no_rtf_builds py jar c Hr) as (pl' & Hb' & Hp).
  rewrite Hb in Hb'. injection Hb' as <-.
  unfold build_calls, with_events, with_rtf, events_address_of in *.
  rewrite Hr in Hb.
  assert (Hport : nth_error (service_ports c) i = Some p).
  { rewrite <- Hp. rewrite nth_error_map, Hn. reflexivity. }
  destruct (events_address c) as [a|];
    destruct (extend_calls_nth _ _ _ _ _ _ _ _ Hb Hn) as (base & _ & Hc);
    exists base; split; assumption.
Qed.

Lemma calls_carry_their_port_witness :
  exists base,
    (["java"; "-Xms128m"; "-Xmx8g"; "-cp"; "b.jar";
      "edu.umn.biomedicus.tagging.tnt.TntPosTaggerProcessor";
      "-p"; "10103"; "--events"; "127.0.0.1:10100"] : call)
    = base ++ ["-p"; "10103"]
        ++ (if (0 <? 2)%nat
            then ["--events"; events_address_of default_conf] else [])
        ++ (if discovery default_conf then ["--register"] else [])
    /\ nth_error (service_ports default_conf) 2 = Some "10103".
Proof.
  eapply (calls_carry_their_port "python" "b.jar" default_conf _ 2);
    reflexivity.
Defined.

(** X2. when an events service that runs elsewhere is given
    ([--events-address]), the first command of the plan is the sentences
    processor, and like every first command it is not passed
    [--events]: it is started without the address of the events
    service, while the four other processors get it. *)
Theorem first_processor_without_events_address py jar c a :
  events_address c = Some a ->
  include_rtf c = false ->
  exists rest,
    build_calls py jar c
    = inr (([py; "-m"; "biomedicus.sentences.bi_lstm"; "processor";
             "-p"; sentences_port c]
              ++ (if discovery c then ["--register"] else []),
            sentences_port c) :: rest)
    /\ List.length rest = 4
    /\ Forall (fun cp => exists pre post,
                 fst cp = pre ++ ["--events"; a] ++ post) rest.
Proof.
  intros Ha Hr. unfold build_calls, with_events, with_rtf.
  rewrite Ha, Hr. cbn. eexists. split; [reflexivity|]. split; [reflexivity|].
  repeat constructor; cbn.
  - exists (java jar "edu.umn.biomedicus.tagging.tnt.TntPosTaggerProcessor"
              ++ ["-p"; tagger_port c]).
    eexists. cbn. reflexivity.
  - exists (java jar "edu.umn.biomedicus.acronym.AcronymDetectorProcessor"
              ++ ["-p"; acronyms_port c]).
    eexists. cbn. reflexivity.
  - exists (java jar "edu.umn.biomedicus.concepts.DictionaryConceptDetector"
              ++ ["-p"; concepts_port c]).
    eexists. cbn. reflexivity.
  - exists ([py; "-m"; "biomedicus.negation.negex"] ++ ["-p"; negation_port c]).
    eexists. cbn. reflexivity.
Qed.

Lemma first_processor_without_events_address_witness :
  exists rest,
    build_calls "python" "b.jar" external_events_conf
    = inr ((["python"; "-m"; "biomedicus.sentences.bi_lstm"; "processor";
             "-p"; "10102"; "--register"], "10102") :: rest)
    /\ List.length rest = 4
    /\ Forall (fun cp => exists pre post,
                 fst cp = pre ++ ["--events"; "10.0.0.7:9000"] ++ post) rest.
Proof.
  exact (first_processor_without_events_address "python" "b.jar"
           external_events_conf "10.0.0.7:9000" eq_refl eq_refl).
Defined.

(** X3. with [--include-rtf] the plan is never built. Line 107 appends a
    list of eight strings where the loop of line 110 unpacks pairs: it
    raises ValueError, whatever else the configuration says. *)
Theorem include_rtf_raises py jar c :
  include_rtf c = true -> build_calls py jar c = inl ValueError.
Proof.
  intros Hr. unfold build_calls, with_events, with_rtf. rewrite Hr.
  destruct (events_address c); reflexivity.
Qed.

Lemma include_rtf_raises_witness :
  build_calls "python" "b.jar" rtf_conf = inl ValueError.
Proof. exact (include_rtf_raises "python" "b.jar" rtf_conf eq_refl). Defined.

Lemma map_nth_seq {A} (d : A) (l : list A) :
  forall k, k <= List.length l ->
            map (fun i => nth i l d) (seq 0 k) = firstn k l.
Proof.
  induction l as [|x l IH]; intros k Hk; cbn in Hk.
  - replace k with 0 by lia. reflexivity.
  - destruct k as [|k]; [reflexivity|].
    cbn [seq firstn map nth]. rewrite <- seq_shift, map_map.
    cbn [nth]. rewrite IH by lia. reflexivity.
Qed.

(** X4. [deploy] as a whole probes the services at 127.0.0.1 and the
    ports of the configuration, in the order events (when it starts one),
    sentences, tagger, acronyms, concepts, negation: in every run the
    addresses probed are a prefix of that list. *)
Theorem probes_follow_service_ports py jar c pl ins s :
  build_calls py jar c = inr pl ->
  deploy pl ins = Some s ->
  exists k,
    k <= List.length (service_ports c)
    /\ map (fun pr => snd (fst pr)) (probes (trace s))
       = map address (firstn k (service_ports c)).
Proof.
  intros Hb Hd.
  destruct (no_rtf_builds py jar c (build_without_rtf _ _ _ _ Hb))
    as (pl' & Hb' & Hp).
  rewrite Hb in Hb'. injection Hb' as <-.
  destruct (invariants_run _ _ _ Hd) as [Hc Ht].
  destruct (installed s) eqn:Hi.
  - destruct (after_install_probed _ _ Hc Ht Hi)
      as (k & (rest & E & Hl & Hpr) & Hk & _).
    assert (Hlen : List.length pl = List.length (service_ports c))
      by (rewrite <- Hp, length_map; reflexivity).
    exists k. split; [lia|].
    rewrite E, probes_app.
    destruct (launch_only_quiet _ (launch_events_launch pl (List.length pl)))
      as [-> _].
    cbn [app]. rewrite Hpr, map_map. unfold probe_at. cbn [fst snd].
    rewrite <- Hp, firstn_map.
    rewrite <- (map_nth_seq (([], "") : call * string) pl k Hk), !map_map.
    reflexivity.
  - exists 0. split; [lia|].
    apply (before_install_launching _ _ Hc Ht) in Hi.
    apply launch_only_quiet in Hi. destruct Hi as [-> _]. reflexivity.
Qed.

Lemma probes_follow_service_ports_witness :
  build_calls "python" "b.jar" default_conf = inr default_plan
  /\ deploy default_plan default_run_inputs = Some default_run
  /\ map (fun pr => snd (fst pr)) (probes (trace default_run))
     = ["127.0.0.1:10100"; "127.0.0.1:10102"]
  /\ exists k,
       k <= List.length (service_ports default_conf)
       /\ map (fun pr => snd (fst pr)) (probes (trace default_run))
          = map address (firstn k (service_ports default_conf)).
Proof.
  assert (Hb : build_calls "python" "b.jar" default_conf = inr default_plan)
    by reflexivity.
  assert (Hd : deploy default_plan default_run_inputs = Some default_run)
    by (vm_compute; reflexivity).
  split; [exact Hb|]. split; [exact Hd|]. split; [reflexivity|].
  exact (probes_follow_service_ports "python" "b.jar" default_conf _ _ _ Hb Hd).
Defined.

(** X5. when [deploy] starts the events service itself, the address it
    passes to every processor with [--events] is the address at which it
    probes that service, the first of the plan. *)
Theorem events_address_is_probed_address py jar c pl :
  events_address c = None ->
  build_calls py jar c = inr pl ->
  exists cmd rest,
    pl = (cmd, events_port c) :: rest
    /\ events_address_of c = address (events_port c)
    /\ List.length rest = 5
    /\ Forall (fun cp => exists pre post,
                 fst cp
                 = pre ++ ["--events"; address (events_port c)] ++ post)
         rest.
Proof.
  intros He Hb. pose proof (build_without_rtf _ _ _ _ Hb) as Hr.
  unfold build_calls, with_events, with_rtf, events_address_of in *.
  rewrite He, Hr in *. cbn in Hb. injection Hb as <-.
  do 2 eexists. split; [reflexivity|]. split; [reflexivity|].
  split; [reflexivity|].
  repeat constructor; cbn.
  - exists ([py; "-m"; "biomedicus.sentences.bi_lstm"; "processor"]
              ++ ["-p"; sentences_port c]).
    eexists. cbn. reflexivity.
  - exists (java jar "edu.umn.biomedicus.tagging.tnt.TntPosTaggerProcessor"
              ++ ["-p"; tagger_port c]).
    eexists. cbn. reflexivity.
  - exists (java jar "edu.umn.biomedicus.acronym.AcronymDetectorProcessor"
              ++ ["-p"; acronyms_port c]).
    eexists. cbn. reflexivity.
  - exists (java jar "edu.umn.biomedicus.concepts.DictionaryConceptDetector"
              ++ ["-p"; concepts_port c]).
    eexists. cbn. reflexivity.
  - exists ([py; "-m"; "biomedicus.negation.negex"] ++ ["-p"; negation_port c]).
    eexists. cbn. reflexivity.
Qed.

Lemma events_address_is_probed_address_witness :
  exists cmd rest,
    default_plan = (cmd, "10100") :: rest
    /\ events_address_of default_conf = address "10100"
    /\ List.length rest = 5
    /\ Forall (fun cp => exists pre post,
                 fst cp = pre ++ ["--events"; address "10100"] ++ post)
         rest.
Proof.
  exact (events_address_is_probed_address "python" "b.jar" default_conf
           default_plan eq_refl eq_refl).
Defined.

(** ** Proofs: the models *)

Lemma writes_app e1 e2 : writes (e1 ++ e2) = writes e1 ++ writes e2.
Proof. apply flat_map_app. Qed.

Lemma unlinked_app e1 e2 : unlinked (e1 ++ e2) = unlinked e1 ++ unlinked e2.
Proof. apply flat_map_app. Qed.

Lemma report_quiet bar hs : writes (report bar hs) = [] /\ unlinked (report bar hs) = [].
Proof.
  revert bar. induction hs as [|[r t] hs IH]; intros bar; [split; reflexivity|].
  cbn [report]. rewrite writes_app, unlinked_app.
  destruct (IH true) as [Hw Hu]. destruct bar; cbn; auto.
Qed.

Lemma install_unlinks_nothing w file data : unlinked (fst (install w file data)) = [].
Proof.
  unfold install.
  destruct (path_exists w data), (mkdir_raises w), (zip_raises w), (extract_raises w);
    reflexivity.
Qed.

Lemma install_writes w file data :
  path_exists w data = true -> install w file data = ([], inl (AttributeError "rmtree")).
Proof. intros H. unfold install. rewrite H. reflexivity. Qed.

(** X6. a directory of models that exists is never replaced.
    [download_data_to] then never creates or extracts anything and never
    returns normally; when the download itself went through, it fails at
    line 74 with AttributeError ([Path] has no [rmtree]), after which the
    downloaded file is removed. *)
Theorem existing_directory_is_never_replaced w url data :
  path_exists w data = true ->
  writes (fst (download_data_to w url data)) = []
  /\ snd (download_data_to w url data) <> inr tt
  /\ forall file,
       hooks w <> [] -> retrieved w = inr file ->
       snd (download_data_to w url data) = inl (AttributeError "rmtree")
       /\ exists evs, fst (download_data_to w url data) = evs ++ [Unlink file].
Proof.
  intros He. unfold download_data_to.
  destruct (hooks w) as [|h hs] eqn:Hh.
  - cbn. split; [reflexivity|]. split; [discriminate|].
    intros f Hne. congruence.
  - destruct (retrieved w) as [err|file] eqn:Hr.
    + cbn [fst snd]. rewrite !writes_app.
      destruct (report_quiet false (h :: hs)) as [-> _].
      split; [reflexivity|]. split; [discriminate|].
      intros f _ Hf. discriminate.
    + rewrite (install_writes _ _ _ He). cbn [fst snd].
      rewrite !writes_app.
      destruct (report_quiet false (h :: hs)) as [-> _].
      split; [reflexivity|]. split; [discriminate|].
      intros f _ Hf. injection Hf as <-. split; [reflexivity|].
      eexists. rewrite !app_assoc. reflexivity.
Qed.

Lemma existing_directory_is_never_replaced_witness :
  writes (fst (download_data_to outdated_world "u" ["srv"; "models"])) = []
  /\ snd (download_data_to outdated_world "u" ["srv"; "models"]) <> inr tt
  /\ forall file,
       hooks outdated_world <> [] -> retrieved outdated_world = inr file ->
       snd (download_data_to outdated_world "u" ["srv"; "models"])
       = inl (AttributeError "rmtree")
       /\ exists evs,
            fst (download_data_to outdated_world "u" ["srv"; "models"])
            = evs ++ [Unlink file].
Proof.
  exact (existing_directory_is_never_replaced outdated_world "u"
           ["srv"; "models"] eq_refl).
Defined.

(** X8. the downloaded file is removed exactly once, as the last thing
    [download_data_to] does, whenever line 69 returned it and the bar
    could be closed, however the installation of lines 73-78 ends; and
    nothing is removed otherwise. *)
Theorem downloaded_file_is_removed w url data :
  (forall file,
     hooks w <> [] -> retrieved w = inr file ->
     unlinked (fst (download_data_to w url data)) = [file]
     /\ exists evs, fst (download_data_to w url data) = evs ++ [Unlink file])
  /\ ((hooks w = [] \/ exists err, retrieved w = inl err) ->
      unlinked (fst (download_data_to w url data)) = []).
Proof.
  unfold download_data_to. split.
  - intros file Hh Hr. destruct (hooks w) as [|h hs]; [congruence|].
    rewrite Hr. destruct (install w file data) as [evs r] eqn:Hi.
    cbn [fst]. split.
    + rewrite !unlinked_app.
      destruct (report_quiet false (h :: hs)) as [_ ->].
      pose proof (install_unlinks_nothing w file data) as Hu.
      rewrite Hi in Hu. cbn [fst] in Hu. rewrite Hu. reflexivity.
    + eexists. rewrite !app_assoc. reflexivity.
  - intros [Hh|[err Hr]].
    + rewrite Hh. reflexivity.
    + destruct (hooks w) as [|h hs]; [reflexivity|]. rewrite Hr.
      cbn [fst]. rewrite !unlinked_app.
      destruct (report_quiet false (h :: hs)) as [_ ->]. reflexivity.
Qed.

(** X9. [download_data_to] returns normally exactly when the hook was
    called at least once, urlretrieve returned a file, the directory did
    not exist, and [mkdir], [ZipFile] and [extractall] all succeeded. *)
Theorem download_succeeds_iff w url data :
  snd (download_data_to w url data) = inr tt
  <-> hooks w <> []
      /\ (exists file, retrieved w = inr file)
      /\ path_exists w data = false
      /\ mkdir_raises w = None /\ zip_raises w = None /\ extract_raises w = None.
Proof.
  unfold download_data_to, install.
  destruct (hooks w) as [|h hs]; cbn [snd].
  - split; [discriminate | intros [H _]; congruence].
  - destruct (retrieved w) as [err|file].
    + split; [discriminate | intros (_ & [f Hf] & _); discriminate].
    + destruct (path_exists w data), (mkdir_raises w), (zip_raises w), (extract_raises w);
        cbn; split; try discriminate;
        try (intros (_ & _ & H1 & H2 & H3 & H4); discriminate).
      all: intros _; repeat split; try discriminate; eauto.
Qed.

Lemma report_from_set hs :
  report true hs = map (fun h => BarUpdate (fst h)) hs.
Proof.
  induction hs as [|[r t] hs IH]; [reflexivity|]. cbn. rewrite IH. reflexivity.
Qed.

Lemma filter_bar_updates hs :
  filter is_bar_call (map (fun h : Z * Z => BarUpdate (fst h)) hs)
  = map (fun h => BarUpdate (fst h)) hs.
Proof.
  induction hs as [|h hs IH]; [reflexivity|]. cbn. rewrite IH. reflexivity.
Qed.

Lemma install_no_bar w file data :
  filter is_bar_call (fst (install w file data)) = [].
Proof.
  unfold install.
  destruct (path_exists w data), (mkdir_raises w), (zip_raises w), (extract_raises w);
    reflexivity.
Qed.

(** X10. the progress bar is created once, by the first report and with
    its total; it advances by the block size of every report, the first
    included; and it is closed once, after the last report, however the
    download ends. With no report there is no bar at all. *)
Theorem progress_bar_follows_reports w url data :
  bar_calls (fst (download_data_to w url data))
  = match hooks w with
    | [] => []
    | (_, total) :: _ =>
        BarNew total :: map (fun h => BarUpdate (fst h)) (hooks w) ++ [BarClose]
    end.
Proof.
  unfold download_data_to, bar_calls.
  destruct (hooks w) as [|[r t] hs]; [reflexivity|].
  destruct (retrieved w) as [err|file].
  - cbn [fst report app]. rewrite report_from_set.
    cbn [filter is_bar_call map fst]. rewrite filter_app, filter_bar_updates.
    reflexivity.
  - destruct (install w file data) as [evs res] eqn:Hi.
    pose proof (install_no_bar w file data) as Hn. rewrite Hi in Hn.
    cbn [fst] in *. cbn [report app]. rewrite report_from_set.
    cbn [filter is_bar_call map fst].
    rewrite filter_app, filter_bar_updates. cbn [filter is_bar_call].
    rewrite filter_app, Hn. reflexivity.
Qed.

Lemma downloaded_file_is_removed_witness :
  unlinked (fst (download_data_to empty_world "u" ["d"])) = ["/tmp/tmpab12"]
  /\ exists evs,
       fst (download_data_to empty_world "u" ["d"])
       = evs ++ [Unlink "/tmp/tmpab12"].
Proof.
  apply (proj1 (downloaded_file_is_removed empty_world "u" ["d"]));
    [discriminate | reflexivity].
Defined.

(** ** Proofs: [check_data] *)

Lemma download_events w url data :
  let evs := fst (download_data_to w url data) in
  ~ In Input evs /\ ~ In PrintModelsMissing evs
  /\ (forall p, ~ In (SetEnv p) evs)
  /\ (forall u, In (Urlretrieve u) evs <-> u = url)
  /\ Forall (fun p => p = data) (writes evs).
Proof.
  assert (Hrep : forall bar hs ev,
             In ev (report bar hs) ->
             exists n, ev = BarNew n \/ ev = BarUpdate n).
  { intros bar hs. revert bar. induction hs as [|[r t] hs IH]; intros bar ev Hin;
      [contradiction|].
    cbn [report] in Hin. apply in_app_or in Hin. destruct Hin as [Hin|[<-|Hin]].
    - destruct bar; [contradiction|]. destruct Hin as [<-|[]]. eauto.
    - eauto.
    - eapply IH; eauto. }
  assert (Hinst : forall file ev,
             In ev (fst (install w file data)) ->
             ev = Mkdir data \/ ev = PrintExtracting \/ ev = ExtractAll file data).
  { intros file ev. unfold install.
    destruct (path_exists w data), (mkdir_raises w), (zip_raises w), (extract_raises w);
      cbn; intuition. }
  assert (Hall : forall ev,
             In ev (fst (download_data_to w url data)) ->
             ev = PrintStarting url \/ ev = Urlretrieve url
             \/ (exists n, ev = BarNew n \/ ev = BarUpdate n)
             \/ ev = BarClose
             \/ (exists file, ev = Mkdir data \/ ev = PrintExtracting
                              \/ ev = ExtractAll file data \/ ev = Unlink file)).
  { intros ev. unfold download_data_to.
    destruct (hooks w) as [|h hs].
    - cbn. intuition.
    - destruct (retrieved w) as [err|file];
        [|destruct (install w file data) as [ievs r] eqn:Hi;
          specialize (Hinst file); rewrite Hi in Hinst];
        cbn [fst] in *; intros Hin;
        repeat match type of Hin with
          | In _ (_ ++ _) => apply in_app_or in Hin; destruct Hin as [Hin|Hin]
          | In _ (_ :: _) => destruct Hin as [Hin|Hin]
          | In _ [] => contradiction
          end;
        try (subst ev; auto; fail).
      + right. right. left. eapply Hrep; eauto.
      + right. right. left. eapply Hrep; eauto.
      + right. right. right. right. exists file.
        destruct (Hinst _ Hin) as [-> | [-> | ->]]; auto.
      + right. right. right. right. exists file. auto. }
  cbn zeta. repeat split.
  - intros Hin. apply Hall in Hin.
    destruct Hin as [H|[H|[[n [H|H]]|[H|[f [H|[H|[H|H]]]]]]]]; discriminate.
  - intros Hin. apply Hall in Hin.
    destruct Hin as [H|[H|[[n [H|H]]|[H|[f [H|[H|[H|H]]]]]]]]; discriminate.
  - intros p Hin. apply Hall in Hin.
    destruct Hin as [H|[H|[[n [H|H]]|[H|[f [H|[H|[H|H]]]]]]]]; discriminate.
  - intros Hin. apply Hall in Hin.
    destruct Hin as [H|[H|[[n [H|H]]|[H|[f [H|[H|[H|H]]]]]]]];
      try discriminate. congruence.
  - intros ->. unfold download_data_to.
    destruct (hooks w); [cbn; auto|].
    destruct (retrieved w); [|destruct (install w s data)]; cbn; auto.
  - apply Forall_forall. intros p Hp. unfold writes in Hp.
    apply in_flat_map in Hp. destruct Hp as (ev & Hin & Hp).
    apply Hall in Hin.
    destruct Hin as [H|[H|[[n [H|H]]|[H|[f [H|[H|[H|H]]]]]]]]; subst ev;
      cbn in Hp; try contradiction; destruct Hp as [<-|[]]; reflexivity.
Qed.

Ltac split_in H :=
  repeat match type of H with
    | In _ (_ ++ _) => apply in_app_or in H; destruct H as [H|H]
    | In _ (_ :: _) => destruct H as [H|H]
    | In _ [] => contradiction
    end.

(** X11. what [check_data] asks and fetches. It prints its notice exactly
    when the models are missing or of another version; it prompts
    exactly when, in addition, [download] is false; it fetches exactly
    when the models are missing and [download] is true or the answer is
    one of Y, y, Yes, yes, and then from the configured URL. Models that
    are there in the right version make it return at once; any other
    answer makes it exit. *)
Theorem check_data_decisions w d :
  let evs := fst (check_data w d) in
  (In PrintModelsMissing evs <-> models_missing w = inr true)
  /\ (In Input evs <-> models_missing w = inr true /\ d = false)
  /\ (forall u,
        In (Urlretrieve u) evs
        <-> u = data_url w /\ models_missing w = inr true
            /\ (d = true \/ accepts (answer w) = true))
  /\ (models_missing w = inr false -> snd (check_data w d) = inr tt)
  /\ (models_missing w = inr true -> d = false ->
      accepts (answer w) = false ->
      snd (check_data w d) = inl SystemExit).
Proof.
  pose proof (download_events w (data_url w) (data_path w)) as Hd.
  cbn zeta in Hd. destruct Hd as (Hi & Hp & Hs & Hu & _).
  unfold check_data.
  destruct (download_data_to w (data_url w) (data_path w)) as [devs r].
  cbn [fst] in *.
  destruct (models_missing w) as [err|[|]];
    destruct d; destruct (accepts (answer w));
    destruct (env_data w); cbn [fst snd app];
    (split; [|split; [|split; [|split]]]);
    try (intros ? ? ?); try (intros ?); try (split; intros H);
    try discriminate; try reflexivity; try congruence;
    repeat match goal with
      | H : _ /\ _ |- _ => destruct H
      | H : _ \/ _ |- _ => destruct H
      end;
    try discriminate; try congruence;
    try (split_in H; try discriminate; try (exfalso; eauto; fail));
    auto;
    try (repeat split; auto; try (eapply Hu; eassumption); fail);
    try (subst; repeat (first [left; reflexivity | right]);
         try (rewrite !in_app_iff; right); try (cbn; right);
         try (apply Hu; reflexivity); fail).
Qed.

Lemma check_data_events w d :
  fst (check_data w d)
  = (match env_data w with Some _ => [] | None => [SetEnv (data_path w)] end)
    ++ match models_missing w with
       | inr true =>
           PrintModelsMissing
             :: (if d then [] else [Input])
             ++ (if d || accepts (answer w)
                 then fst (download_data_to w (data_url w) (data_path w))
                 else [])
       | _ => []
       end.
Proof.
  unfold check_data.
  destruct (download_data_to w (data_url w) (data_path w)) as [devs r].
  destruct (models_missing w) as [err|[|]], d, (accepts (answer w));
    cbn [fst orb app]; rewrite ?app_nil_r; reflexivity.
Qed.

Lemma check_data_returns w d :
  snd (check_data w d) = inr tt ->
  models_missing w = inr false
  \/ (models_missing w = inr true
      /\ snd (download_data_to w (data_url w) (data_path w)) = inr tt).
Proof.
  unfold check_data.
  destruct (download_data_to w (data_url w) (data_path w)) as [devs r].
  destruct (models_missing w) as [err|[|]], d, (accepts (answer w));
    cbn [snd]; intros H; try discriminate H; auto.
Qed.

(** X12. where the models go. Whatever [check_data] creates or extracts,
    it does so in the directory that BIOMEDICUS_DATA names when the
    variable is set (and the variable is then left alone), and in
    .biomedicus/data below the home directory otherwise, after setting
    the variable to it first. *)
Theorem models_go_to_data_path w d :
  let evs := fst (check_data w d) in
  Forall (fun p => p = data_path w) (writes evs)
  /\ (forall p, env_data w = Some p ->
        data_path w = p /\ forall q, ~ In (SetEnv q) evs)
  /\ (env_data w = None ->
        exists rest,
          evs = SetEnv (home w ++ [".biomedicus"; "data"]) :: rest
          /\ forall q, ~ In (SetEnv q) rest).
Proof.
  cbn zeta. rewrite check_data_events.
  pose proof (download_events w (data_url w) (data_path w)) as Hd.
  cbn zeta in Hd. destruct Hd as (_ & _ & Hs & _ & Hw).
  set (devs := fst (download_data_to w (data_url w) (data_path w))) in *.
  assert (Hrest : forall q,
           ~ In (SetEnv q)
               match models_missing w with
               | inr true =>
                   PrintModelsMissing
                     :: (if d then [] else [Input])
                     ++ (if d || accepts (answer w) then devs else [])
               | _ => []
               end).
  { intros q Hin. destruct (models_missing w) as [err|[|]]; [contradiction| |contradiction].
    destruct d, (accepts (answer w)); cbn [orb app] in Hin;
      split_in Hin; try discriminate; eapply Hs; eassumption. }
  split; [|split].
  - rewrite writes_app. apply Forall_app. split.
    + destruct (env_data w); constructor.
    + destruct (models_missing w) as [err|[|]]; try constructor.
      destruct d, (accepts (answer w)); cbn [orb app writes flat_map];
        rewrite ?app_nil_r; try assumption; constructor.
  - intros p Hp. unfold data_path. rewrite Hp. split; [reflexivity|].
    intros q Hin. cbn [app] in Hin. exact (Hrest q Hin).
  - intros Hn. unfold data_path at 1. rewrite Hn. cbn [app].
    eexists. split; [reflexivity|]. exact Hrest.
Qed.

Lemma models_go_to_data_path_witness :
  env_data outdated_world = Some ["srv"; "models"]
  /\ data_path outdated_world = ["srv"; "models"]
  /\ forall q, ~ In (SetEnv q) (fst (check_data outdated_world false)).
Proof.
  split; [reflexivity|].
  exact (proj1 (proj2 (models_go_to_data_path outdated_world false))
           ["srv"; "models"] eq_refl).
Defined.

(** ** Proofs: [deploy] as a whole *)

Lemma download_into_existing w url data :
  path_exists w data = true ->
  writes (fst (download_data_to w url data)) = []
  /\ snd (download_data_to w url data) <> inr tt.
Proof.
  intros He. unfold download_data_to.
  destruct (hooks w) as [|h hs].
  - split; [reflexivity | discriminate].
  - destruct (retrieved w) as [err|file].
    + cbn [fst snd]. rewrite !writes_app.
      destruct (report_quiet false (h :: hs)) as [-> _].
      split; [reflexivity | discriminate].
    + rewrite (install_writes _ _ _ He). cbn [fst snd].
      rewrite !writes_app.
      destruct (report_quiet false (h :: hs)) as [-> _].
      split; [reflexivity | discriminate].
Qed.

Lemma download_returns w url data :
  snd (download_data_to w url data) = inr tt ->
  hooks w <> []
  /\ (exists file, retrieved w = inr file)
  /\ path_exists w data = false
  /\ mkdir_raises w = None /\ zip_raises w = None /\ extract_raises w = None.
Proof.
  unfold download_data_to, install.
  destruct (hooks w) as [|h hs]; cbn [snd]; [discriminate|].
  destruct (retrieved w) as [err|file]; [discriminate|].
  destruct (path_exists w data), (mkdir_raises w), (zip_raises w),
    (extract_raises w); cbn; try discriminate.
  intros _. repeat split; try discriminate; eauto.
Qed.

Lemma deploy_conf_events w python_exe jar_path c ins :
  fst (deploy_conf w python_exe jar_path c ins)
  = fst (check_data w (download_data c)).
Proof.
  unfold deploy_conf.
  destruct (check_data w (download_data c)) as [evs [[]|[]]];
    try reflexivity.
  destruct (build_calls python_exe jar_path c); reflexivity.
Qed.

Lemma deploy_conf_launched w python_exe jar_path c ins pl r :
  snd (deploy_conf w python_exe jar_path c ins) = Launched pl r ->
  snd (check_data w (download_data c)) = inr tt
  /\ build_calls python_exe jar_path c = inr pl
  /\ r = deploy pl ins.
Proof.
  unfold deploy_conf.
  destruct (check_data w (download_data c)) as [evs [[]|[]]];
    cbn [snd]; try discriminate.
  destruct (build_calls python_exe jar_path c) as [x|pl'];
    cbn [snd]; [discriminate|].
  intros H. injection H as <- <-. auto.
Qed.

(** X13. models of another version stop the launch. When the directory of
    the models exists and does not hold the configured version (or its
    VERSION.txt cannot be read), [deploy] never builds the plan and
    never launches anything, whatever is answered and whatever the
    download does, and it creates and extracts nothing: the download
    that lines 54-55 start cannot replace the directory. *)
Theorem existing_models_block_launch w python_exe jar_path c ins :
  path_exists w (data_path w) = true ->
  models_missing w <> inr false ->
  let res := deploy_conf w python_exe jar_path c ins in
  (forall pl r, snd res <> Launched pl r)
  /\ (forall x, snd res <> PlanRaised x)
  /\ writes (fst res) = [].
Proof.
  intros He Hm. cbn zeta.
  destruct (download_into_existing w (data_url w) (data_path w) He) as [Hw Hr].
  assert (Hc : snd (check_data w (download_data c)) <> inr tt).
  { intros H. apply check_data_returns in H. destruct H as [H|[_ H]]; auto. }
  split; [|split].
  - intros pl r H. apply deploy_conf_launched in H. apply Hc, H.
  - intros x. unfold deploy_conf.
    destruct (check_data w (download_data c)) as [evs [[]|[]]];
      cbn [snd] in *; try discriminate. congruence.
  - rewrite deploy_conf_events, check_data_events, writes_app.
    replace (writes match env_data w with
                    | Some _ => []
                    | None => [SetEnv (data_path w)]
                    end) with (@nil path) by (destruct (env_data w); reflexivity).
    destruct (models_missing w) as [err|[|]]; try reflexivity.
    destruct (download_data c), (accepts (answer w));
      cbn [orb app writes flat_map]; rewrite ?app_nil_r;
      try assumption; reflexivity.
Qed.

Lemma existing_models_block_launch_witness :
  let res := deploy_conf outdated_world "python" "b.jar"
               default_conf default_run_inputs in
  (forall pl r, snd res <> Launched pl r)
  /\ (forall x, snd res <> PlanRaised x)
  /\ writes (fst res) = [].
Proof.
  apply (existing_models_block_launch outdated_world "python"
           "b.jar" default_conf default_run_inputs).
  - reflexivity.
  - vm_compute. discriminate.
Defined.

(** X14. what a launch presupposes. When [deploy] reaches the launch loop,
    it runs the plan that lines 88-115 build from the configuration;
    RTF was not asked for; and either the models were there in the
    configured version, or their directory did not exist and the
    download created it, with a progress report, a file from
    urlretrieve, and [mkdir], [ZipFile] and [extractall] all
    succeeding. *)
Theorem launched_only_with_models w python_exe jar_path c ins pl r :
  snd (deploy_conf w python_exe jar_path c ins) = Launched pl r ->
  build_calls python_exe jar_path c = inr pl
  /\ r = deploy pl ins
  /\ include_rtf c = false
  /\ (models_missing w = inr false
      \/ (path_exists w (data_path w) = false
          /\ (download_data c = true \/ accepts (answer w) = true)
          /\ hooks w <> []
          /\ (exists file, retrieved w = inr file)
          /\ mkdir_raises w = None /\ zip_raises w = None
          /\ extract_raises w = None)).
Proof.
  intros H. apply deploy_conf_launched in H. destruct H as (Hc & Hb & Hr).
  split; [assumption|]. split; [assumption|]. split.
  - exact (build_without_rtf _ _ _ _ Hb).
  - pose proof Hc as Hc'. apply check_data_returns in Hc'.
    destruct Hc' as [Hm|[Hm Hd]]; [left; assumption|right].
    apply download_returns in Hd.
    destruct Hd as (Hh & Hf & He & Hk & Hz & Hx).
    repeat split; try assumption.
    unfold check_data in Hc. rewrite Hm in Hc.
    destruct (download_data c); [left; reflexivity|].
    destruct (accepts (answer w)); [right; reflexivity|discriminate Hc].
Qed.

Lemma launched_only_with_models_witness :
  build_calls "python" "b.jar" default_conf = inr default_plan
  /\ deploy default_plan default_run_inputs = deploy default_plan default_run_inputs
  /\ include_rtf default_conf = false
  /\ (models_missing empty_world = inr false
      \/ (path_exists empty_world (data_path empty_world) = false
          /\ (download_data default_conf = true
              \/ accepts (answer empty_world) = true)
          /\ hooks empty_world <> []
          /\ (exists file, retrieved empty_world = inr file)
          /\ mkdir_raises empty_world = None /\ zip_raises empty_world = None
          /\ extract_raises empty_world = None)).
Proof.
  exact (launched_only_with_models empty_world "python" "b.jar"
           default_conf default_run_inputs default_plan
           (deploy default_plan default_run_inputs) eq_refl).
Defined.

(** X15. declining the download ends the interpreter, not only [deploy].
    With the models missing, [download_data] false and any answer other
    than Y, y, Yes, yes, [deploy] prompts once, fetches and writes
    nothing, and raises SystemExit, which the [except ValueError] of
    line 86 does not catch; nothing is launched. *)
Theorem declined_download_exits w python_exe jar_path c ins :
  models_missing w = inr true ->
  download_data c = false ->
  accepts (answer w) = false ->
  let res := deploy_conf w python_exe jar_path c ins in
  snd res = SetupRaised SystemExit
  /\ (exists env, fst res = env ++ [PrintModelsMissing; Input]
                  /\ forall ev, In ev env -> ev = SetEnv (data_path w))
  /\ (forall u, ~ In (Urlretrieve u) (fst res))
  /\ writes (fst res) = [].
Proof.
  intros Hm Hd Ha. cbn zeta. unfold deploy_conf, check_data.
  rewrite Hm, Hd, Ha. cbn [fst snd].
  split; [reflexivity|]. split; [|split].
  - eexists. split; [reflexivity|].
    intros ev Hin. destruct (env_data w); [contradiction|].
    destruct Hin as [<-|[]]. reflexivity.
  - intros u Hin. destruct (env_data w); cbn in Hin;
      repeat destruct Hin as [Hin|Hin]; try discriminate; contradiction.
  - destruct (env_data w); reflexivity.
Qed.

Lemma declined_download_exits_witness :
  let res := deploy_conf declining_world "python" "b.jar"
               default_conf default_run_inputs in
  snd res = SetupRaised SystemExit
  /\ (exists env, fst res = env ++ [PrintModelsMissing; Input]
                  /\ forall ev, In ev env -> ev = SetEnv (data_path declining_world))
  /\ (forall u, ~ In (Urlretrieve u) (fst res))
  /\ writes (fst res) = [].
Proof.
  exact (declined_download_exits declining_world "python"
           "b.jar" default_conf default_run_inputs
           eq_refl eq_refl eq_refl).
Defined.

(** ** Proofs: [_listen] *)

Lemma relay_outcome decode lines :
  (exists texts,
      map decode lines = map Some texts
      /\ relay decode lines = (map Print texts, true))
  \/ (exists good bad rest texts,
         lines = good ++ bad :: rest
         /\ map decode good = map Some texts
         /\ decode bad = None
         /\ relay decode lines = (map Print texts, false)).
Proof.
  induction lines as [|line lines IH].
  - left. exists []. split; reflexivity.
  - cbn [relay map]. destruct (decode line) as [text|] eqn:Hd.
    + destruct IH as [(texts & Hm & Hr)|(good & bad & rest & texts & Hl & Hm & Hb & Hr)];
        rewrite Hr.
      * left. exists (text :: texts). cbn [map]. rewrite Hm. split; reflexivity.
      * right. exists (line :: good), bad, rest, (text :: texts).
        cbn [map app]. rewrite Hl, Hm, Hd. auto.
    + right. exists [], line, lines, []. auto.
Qed.

(** X16. the listener relays the child's lines in order, each decoded and
    printed as it is, and asks for the child's status only after the
    last one, which it then returns. A line that cannot be decoded ends
    the listener there: that line and all later ones are never printed,
    and the child is never waited for. *)
Theorem listen_relays_until_undecodable decode process :
  (exists texts,
      map decode (stdout process) = map Some texts
      /\ _listen decode process
         = (map Print texts ++ [Wait], Exited (wait_status process)))
  \/ (exists good bad rest texts,
         stdout process = good ++ bad :: rest
         /\ map decode good = map Some texts
         /\ decode bad = None
         /\ _listen decode process = (map Print texts, DecodeRaised)).
Proof.
  unfold _listen.
  destruct (relay_outcome decode (stdout process))
    as [(texts & Hm & Hr)|(good & bad & rest & texts & Hl & Hm & Hb & Hr)];
    rewrite Hr.
  - left. exists texts. auto.
  - right. exists good, bad, rest, texts. auto.
Qed.

(** ** Proofs: how [deploy] ends *)

Lemma all_signalled_more n tr tr' :
  all_signalled n tr -> all_signalled n (tr ++ tr').
Proof.
  intros H j Hj. rewrite signals_to_app. specialize (H j Hj). lia.
Qed.

Lemma sent_by_more n tr tr' h : sent_by n tr h -> sent_by n (tr ++ tr') h.
Proof.
  destruct h; cbn [sent_by]; auto using all_signalled_more.
  intros H i Hi Hn. rewrite signals_to_app. specialize (H i Hi Hn). lia.
Qed.

Lemma sent_by_all_more n tr tr' hs :
  Forall (sent_by n tr) hs -> Forall (sent_by n (tr ++ tr')) hs.
Proof. intros H. eapply Forall_impl; [|exact H]. intros h. apply sent_by_more. Qed.

Lemma nth_error_seq0 n j p : nth_error (seq 0 n) j = Some p -> p = j /\ j < n.
Proof.
  intros H.
  assert (Hj : j < List.length (seq 0 n))
    by (apply nth_error_Some; congruence).
  rewrite length_seq in Hj.
  split; [|exact Hj].
  apply (nth_error_nth _ _ 0) in H. rewrite seq_nth in H by exact Hj. lia.
Qed.

Lemma signals_to_snoc_self j tr :
  signals_to j (tr ++ [ESignal j]) = S (signals_to j tr).
Proof.
  rewrite signals_to_app. cbn. rewrite Nat.eqb_refl. cbn. lia.
Qed.

Lemma signalled_inv_step calls s a s' :
  control_inv calls s -> signalled_inv calls s ->
  step calls s a = Some s' -> signalled_inv calls s'.
Proof.
  intros Hc (Hh & He & Hf) Hstep. unfold signalled_inv.
  assert (Hp : forall h hs, handlers s = h :: hs ->
                            processes s = seq 0 (List.length calls)).
  { intros h hs E. apply (armed_of_installed calls s Hc).
    exact (installed_of_handlers calls s h hs Hc E). }
  step_cases Hstep; unfold_updates.
  all: unfold future_cancelled, future_matured, mature in *;
    unfold_updates; cbn [cancelled] in *.
  all: repeat match goal with
         | H : handlers ?s = _ |- _ => rewrite H in *
         end.
  all: try match goal with
         | E : future _ = Some _ |- _ => rewrite E in *
         end.
  all: cbn [tl cancelled].
  all: try match goal with
         | H : Forall _ (_ :: _) |- _ => inversion H; subst; clear H
         end.
  all: cbn [sent_by] in *.
  all: split; [|split].
  all: try discriminate.
  all: try assumption.
  all: try (constructor; fail).
  all: try (intros; apply all_signalled_more; auto; fail).
  all: try (apply sent_by_all_more; assumption).
  all: try (constructor; cbn [sent_by];
            [|try apply sent_by_all_more; assumption]).
  all: try exact I.
  all: try assumption.
  all: try (apply all_signalled_more; assumption).
  all: try (intros _; try apply all_signalled_more; assumption).
  all: try (destruct (future s) as [f1|]; cbn [cancelled] in *;
            intros; try apply all_signalled_more; auto; congruence).
  - (* 131: nothing sent yet *)
    intros i Hi. lia.
  - (* 133: one more child *)
    match goal with
    | E : nth_error (processes _) _ = Some _ |- _ =>
        rewrite (Hp _ _ eq_refl) in E; apply nth_error_seq0 in E;
        destruct E as [-> Hj]
    end.
    intros i Hi Hn. destruct (Nat.eq_dec i j) as [->|Hne].
    + rewrite signals_to_snoc_self. lia.
    + rewrite signals_to_app.
      match goal with
      | H : forall i, i < _ -> _ -> 1 <= signals_to i _ |- _ =>
          specialize (H i ltac:(lia) Hn)
      end.
      lia.
  - (* 132: the loop is over *)
    match goal with
    | E : nth_error (processes _) _ = None |- _ =>
        apply nth_error_None in E; rewrite (Hp _ _ eq_refl), length_seq in E
    end.
    intros i Hi.
    match goal with
    | H : forall i, i < _ -> _ -> 1 <= signals_to i _ |- _ =>
        apply H; [lia | exact Hi]
    end.
Qed.

Lemma signalled_inv_run calls ins s :
  deploy calls ins = Some s -> signalled_inv calls s.
Proof.
  intros H.
  assert (Hinv : control_inv calls s /\ signalled_inv calls s);
    [|apply Hinv].
  eapply run_invariant
    with (P := fun s => control_inv calls s /\ signalled_inv calls s);
    [| |exact H].
  - intros s0 a s1 [Hc Hs] Hstep. split;
      [eapply control_inv_step | eapply signalled_inv_step]; eauto.
  - split; [apply control_inv_init|].
    split; [constructor|]. split; discriminate.
Qed.

(** X17. what the children were sent when [deploy] ends. When it returns,
    or when FutureCancelledError or TypeError leaves it, every child was
    sent SIGINT at least once; when [Popen] raised, or a SIGINT arrived
    before the handler was installed, no child was sent anything. *)
Theorem children_signalled_at_exit calls ins s o :
  deploy calls ins = Some s ->
  main s = MFinished o ->
  match o with
  | Returned | Raised FutureCancelledError | Raised TypeError =>
      forall j, j < List.length calls -> 1 <= signals_to j (trace s)
  | Raised (SpawnFailure _) | Raised KeyboardInterrupt =>
      forall j, signals_to j (trace s) = 0
  end.
Proof.
  intros H Hm.
  pose proof (signalled_inv_run _ _ _ H) as (_ & He & Hf).
  pose proof (raised_after_cancel _ _ _ H) as Hx.
  destruct (invariants_run _ _ _ H) as [Hc Ht].
  pose proof (before_install_launching _ _ Hc Ht) as Hl.
  unfold control_inv, quiet in Hc. rewrite Hm in Hc, Hx.
  assert (Hcan : forall x, o = Raised x ->
                 x = FutureCancelledError \/ x = TypeError ->
                 future_cancelled s = true).
  { intros x -> Hxx. destruct Hx as (f & Ef & Hcd & _).
    - destruct Hxx as [->| ->]; auto.
    - unfold future_cancelled. rewrite Ef. exact Hcd. }
  destruct o as [|[i| | |]].
  - apply He, Hc.
  - apply launch_only_quiet, Hl, Hc.
  - apply Hf. eapply Hcan; eauto.
  - apply Hf. eapply Hcan; eauto.
  - apply launch_only_quiet, Hl, Hc.
Qed.

Lemma children_signalled_at_exit_witness :
  deploy plan1 (flagged_inputs ++ flagged_rest) = Some flagged_end
  /\ main flagged_end = MFinished Returned
  /\ forall j, j < 1 -> 1 <= signals_to j (trace flagged_end).
Proof.
  assert (H : deploy plan1 (flagged_inputs ++ flagged_rest) = Some flagged_end)
    by (vm_compute; reflexivity).
  split; [exact H|]. split; [reflexivity|].
  exact (children_signalled_at_exit plan1 _ _ Returned H eq_refl).
Defined.

Lemma on_course_step calls s a s' :
  on_course s -> is_trigger a = false -> step calls s a = Some s' ->
  on_course s'.
Proof.
  intros (Hh & Hs & He & Hf & Hfut & Hm & Hp & Hsig) Ha Hstep.
  unfold on_course.
  step_cases Hstep; unfold_updates; try discriminate Ha; try congruence.
  all: try match goal with E : main _ = _ |- _ => rewrite E in Hm end.
  all: try contradiction.
  all: unfold future_cancelled, future_matured, mature, in_result in *;
    unfold_updates; cbn [cancelled matured] in *.
  all: try match goal with E : main _ = _ |- _ => rewrite E in * end.
  all: rewrite ?printed_app; cbn [printed flat_map app]; rewrite ?app_nil_r.
  all: try match goal with
         | E : future _ = Some _ |- _ => rewrite E in *
         end.
  all: try match goal with
         | E : _ || _ = false |- _ =>
             apply orb_false_elim in E; destruct E
         end.
  all: try (exfalso;
            match goal with
            | H : ?a = false -> false = false -> Some _ = None,
              E : ?a = false |- _ => discriminate (H E eq_refl)
            end).
  all: repeat split; auto; try congruence.
  all: try (intros j; rewrite signals_to_app; cbn; rewrite Hsig; reflexivity).
  all: try (destruct (future s) as [f1|]; cbn [cancelled matured] in *;
            congruence).
  all: try (apply Forall_app; split; [assumption | repeat constructor]).
Qed.

Lemma on_course_run calls ins :
  forall s s',
    on_course s -> forallb (fun a => negb (is_trigger a)) ins = true ->
    run calls s ins = Some s' -> on_course s'.
Proof.
  induction ins as [|a ins IH]; intros s s' Hs Hins Hr; cbn in Hr, Hins.
  - injection Hr as <-. exact Hs.
  - apply andb_prop in Hins. destruct Hins as [Ha Hins].
    apply negb_true_iff in Ha.
    destruct (step calls s a) as [s1|] eqn:E; [|discriminate].
    exact (IH s1 s' (on_course_step _ _ _ _ Hs Ha E) Hins Hr).
Qed.

(** X18. [deploy] leaves its course only on a trigger. In a run in which
    no SIGINT arrives, no [Popen] raises and no probe times out,
    [deploy] has not ended, however long the run: the flag and the event
    are unset, no child was sent a termination request, and nothing but
    'Done starting all processors' was printed. *)
Theorem no_trigger_no_end calls ins s :
  forallb (fun a => negb (is_trigger a)) ins = true ->
  deploy calls ins = Some s ->
  finished s = false
  /\ shutting_down s = false /\ e s = false
  /\ (forall j, signals_to j (trace s) = 0)
  /\ Forall (fun l => l = DoneStarting) (printed (trace s)).
Proof.
  intros Hins H.
  assert (Hi : on_course init).
  { unfold on_course. cbn. repeat split; auto. }
  destruct (on_course_run calls ins init s Hi Hins H)
    as (_ & Hs & He & _ & _ & Hm & Hp & Hsig).
  repeat split; auto.
  unfold finished. destruct (main s); try reflexivity; contradiction.
Qed.

Lemma no_trigger_no_end_witness :
  deploy plan3 ready3_inputs = Some ready3
  /\ main ready3 = MWait
  /\ finished ready3 = false
  /\ shutting_down ready3 = false /\ e ready3 = false
  /\ (forall j, signals_to j (trace ready3) = 0)
  /\ Forall (fun l => l = DoneStarting) (printed (trace ready3)).
Proof.
  assert (H : deploy plan3 ready3_inputs = Some ready3)
    by (vm_compute; reflexivity).
  split; [exact H|]. split; [reflexivity|].
  exact (no_trigger_no_end plan3 ready3_inputs ready3 eq_refl H).
Defined.

End Deploy.
